(** * Gist: the retrieval-augmented generation core

    A shallow embedding of the chunker ([src/ingest/chunker.py]), the indexer
    ([src/ingest/embeddings.py]), the context assembler
    ([src/retrieval/retriever.py]), the budget arithmetic
    ([src/generation/prompt.py]) and the retry loop of the generation client
    ([src/generation/llm.py]), followed by the properties of these functions.

    Python integers are unbounded and are modelled by [Z].  A Python [str] is
    modelled by a list of characters; the characters are the code points
    0..255, on which [isspace] and [lower] below agree with CPython. *)

From Stdlib Require Import Ascii String.
From Stdlib Require Import List ZArith Lia Bool Arith.
From Stdlib Require Import Numbers.DecimalString Numbers.DecimalZ Numbers.DecimalPos.
Import ListNotations.

Open Scope Z_scope.

(** ** Python primitives used by the sources *)

Module Py.

Definition pystr := list ascii.

Definition lit (s : string) : pystr := list_ascii_of_string s.

Definition len {A : Type} (s : list A) : Z := Z.of_nat (length s).

Definition nl : ascii := "010"%char.
Definition cr : ascii := "013"%char.

Definition str_eqb (a b : pystr) : bool :=
  if list_eq_dec ascii_dec a b then true else false.

Definition is_empty {A : Type} (s : list A) : bool :=
  match s with [] => true | _ :: _ => false end.

(** [str.isspace] of a single character, for code points below 256. *)
Definition isspace (c : ascii) : bool :=
  let n := nat_of_ascii c in
  ((9 <=? n) && (n <=? 13) || (28 <=? n) && (n <=? 32)
   || (n =? 133) || (n =? 160))%nat.

Fixpoint lstrip (s : pystr) : pystr :=
  match s with
  | [] => []
  | c :: r => if isspace c then lstrip r else s
  end.

Definition rstrip (s : pystr) : pystr := rev (lstrip (rev s)).

Definition strip (s : pystr) : pystr := rstrip (lstrip s).

(** [str.lower] of a single character, for code points below 256. *)
Definition lower_char (c : ascii) : ascii :=
  let n := nat_of_ascii c in
  if ((65 <=? n) && (n <=? 90)
      || (192 <=? n) && (n <=? 222) && negb (n =? 215))%nat
  then ascii_of_nat (n + 32) else c.

Definition lower (s : pystr) : pystr := map lower_char s.

Fixpoint startswith (p s : pystr) : bool :=
  match p, s with
  | [], _ => true
  | _ :: _, [] => false
  | a :: p', b :: s' => Ascii.eqb a b && startswith p' s'
  end.

(** [s[lo:hi]], with Python's treatment of negative and out-of-range
    bounds. *)
Definition clamp_index (n i : Z) : Z :=
  if i <? 0 then Z.max 0 (i + n) else Z.min i n.

Definition slice {A : Type} (s : list A) (lo hi : Z) : list A :=
  let lo' := clamp_index (len s) lo in
  let hi' := clamp_index (len s) hi in
  firstn (Z.to_nat (hi' - lo')) (skipn (Z.to_nat lo') s).

(** [s.split(c)] for a one-character separator. *)
Fixpoint split_char (c : ascii) (s : pystr) : list pystr :=
  match s with
  | [] => [[]]
  | a :: r =>
      if Ascii.eqb a c then [] :: split_char c r
      else match split_char c r with
           | h :: t => (a :: h) :: t
           | [] => [[a]]
           end
  end.

Fixpoint join (sep : pystr) (parts : list pystr) : pystr :=
  match parts with
  | [] => []
  | [p] => p
  | p :: ps => p ++ sep ++ join sep ps
  end.

(** [s.replace(old, new)] for a non-empty [old]: a left-to-right scan over
    non-overlapping occurrences.  [skip] counts the characters of the
    occurrence found last that are still to be dropped. *)
Fixpoint replace_from (old new : pystr) (skip : nat) (s : pystr) : pystr :=
  match s with
  | [] => []
  | c :: r =>
      match skip with
      | S k => replace_from old new k r
      | O =>
          if startswith old s
          then new ++ replace_from old new (length old - 1) r
          else c :: replace_from old new 0 r
      end
  end.

Definition replace (old new s : pystr) : pystr := replace_from old new 0 s.

(** [str(n)] of an integer. *)
Definition str_of_int (z : Z) : pystr :=
  list_ascii_of_string (NilZero.string_of_int (Z.to_int z)).

(** The values found in the dictionaries of the pipeline, and how an
    f-string renders them. *)
Inductive pyval : Type :=
| VNone
| VInt (z : Z)
| VStr (s : pystr).

Definition format (v : pyval) : pystr :=
  match v with
  | VNone => lit "None"
  | VInt z => str_of_int z
  | VStr s => s
  end.

Definition dict := list (string * pyval).

Fixpoint dict_lookup (d : dict) (k : string) : option pyval :=
  match d with
  | [] => None
  | (k', v) :: d' => if String.eqb k' k then Some v else dict_lookup d' k
  end.

(** [d.get(k, default)]. *)
Definition dict_get (d : dict) (k : string) (default : pyval) : pyval :=
  match dict_lookup d k with
  | Some v => v
  | None => default
  end.

(** The truth value of a value, and [==] between two values. *)
Definition truthy (v : pyval) : bool :=
  match v with
  | VNone => false
  | VInt z => negb (z =? 0)
  | VStr s => negb (is_empty s)
  end.

Definition pyval_eqb (a b : pyval) : bool :=
  match a, b with
  | VNone, VNone => true
  | VInt x, VInt y => x =? y
  | VStr x, VStr y => str_eqb x y
  | _, _ => false
  end.

(** [os.path.join(a, b)] (posixpath). *)
Definition os_path_join (a b : pystr) : pystr :=
  if startswith (lit "/") b then b
  else if is_empty a || startswith (lit "/") (rev a) then a ++ b
  else a ++ lit "/" ++ b.

(** [os.path.splitext(path)[1]] (posixpath): the extension starts at the last
    dot of the last path component, leading dots of the component apart. *)
Fixpoint rfind (c : ascii) (i : Z) (s : pystr) : Z :=
  match s with
  | [] => -1
  | a :: r =>
      let j := rfind c (i + 1) r in
      if 0 <=? j then j else if Ascii.eqb a c then i else -1
  end.

Definition splitext_ext (p : pystr) : pystr :=
  let sepIndex := rfind "/"%char 0 p in
  let dotIndex := rfind "."%char 0 p in
  if sepIndex <? dotIndex then
    let name := slice p (sepIndex + 1) dotIndex in
    if forallb (Ascii.eqb "."%char) name then [] else slice p dotIndex (len p)
  else [].

(** What a call does: it returns, it raises, or (in the model only) the
    budget of loop iterations given to it runs out. *)
Inductive exn : Type :=
| ValueError (msg : string)
| RuntimeError (msg : string)
| HTTPError (status : Z).

Inductive outcome (A : Type) : Type :=
| Ret (a : A)
| Raise (e : exn)
| OutOfFuel.

Arguments Ret {A} a.
Arguments Raise {A} e.
Arguments OutOfFuel {A}.

Definition bind {A B : Type} (m : outcome A) (k : A -> outcome B) : outcome B :=
  match m with
  | Ret a => k a
  | Raise e => Raise e
  | OutOfFuel => OutOfFuel
  end.

End Py.

Import Py.

Notation "x <- m ;; k" := (bind m (fun x => k))
  (at level 61, m at next level, right associativity).

(** ** src/ingest/chunker.py *)

Module Chunker.

Definition TOKEN_TO_CHAR : Z := 4.

Definition is_blank (line : pystr) : bool := is_empty (strip line).

(** The loop of [normalize_text] that keeps at most two blank lines in a
    row. *)
Fixpoint collapse_blank_runs (blank_run : Z) (lines : list pystr) : list pystr :=
  match lines with
  | [] => []
  | line :: rest =>
      let blank_run := if is_blank line then blank_run + 1 else 0 in
      if 2 <? blank_run then collapse_blank_runs blank_run rest
      else line :: collapse_blank_runs blank_run rest
  end.

Definition normalize_text (text : pystr) : pystr :=
  let text := replace [cr] [nl] (replace [cr; nl] [nl] text) in
  let lines := map rstrip (split_char nl text) in
  let out_lines := collapse_blank_runs 0 lines in
  strip (join [nl] out_lines).

Inductive file_type : Type := markdown | code | config | notebook | text.

Definition ext_in (ext : pystr) (exts : list string) : bool :=
  existsb (fun e => str_eqb ext (lit e)) exts.

Definition detect_file_type (path : pystr) : file_type :=
  let ext := lower (splitext_ext path) in
  if ext_in ext [".md"; ".rst"]%string then markdown
  else if ext_in ext [".py"; ".js"; ".ts"; ".java"; ".go"; ".rb"]%string then code
  else if ext_in ext [".json"; ".yaml"; ".yml"; ".toml"; ".ini"]%string then config
  else if ext_in ext [".ipynb"]%string then notebook
  else text.

(** The [while] loop of [chunk_by_char]; one unit of fuel per iteration,
    [None] when the fuel runs out. *)
Fixpoint chunk_loop (fuel : nat) (text : pystr) (chunk_size overlap : Z)
    (start : Z) (chunks : list pystr) : option (list pystr) :=
  match fuel with
  | O => None
  | S fuel' =>
      if start <? len text then
        let end_ := start + chunk_size in
        let chunk := slice text start end_ in
        let chunks := chunks ++ [chunk] in
        if len text <=? end_ then Some chunks
        else chunk_loop fuel' text chunk_size overlap
               (Z.max 0 (end_ - overlap)) chunks
      else Some chunks
  end.

Definition strip_nonempty (chunks : list pystr) : list pystr :=
  map strip (filter (fun c => negb (is_empty (strip c))) chunks).

Definition chunk_by_char (fuel : nat) (text : pystr)
    (chunk_size_tokens overlap_tokens : Z) : outcome (list pystr) :=
  if is_empty text then Ret []
  else
    let chunk_size := chunk_size_tokens * TOKEN_TO_CHAR in
    let overlap := overlap_tokens * TOKEN_TO_CHAR in
    if chunk_size <=? 0
    then Raise (ValueError "chunk_size_tokens must be positive")
    else match chunk_loop fuel text chunk_size overlap 0 [] with
         | None => OutOfFuel
         | Some chunks => Ret (strip_nonempty chunks)
         end.


(** [starter_re.match(line)]: both patterns are [^\s*] followed by an
    alternation of literal keywords, so a line matches when one of the
    keywords follows its leading whitespace. *)
Inductive lang : Type := python | js.

Definition starters (l : lang) : list string :=
  match l with
  | python => ["def "; "class "]%string
  | js => ["function "; "class "; "const "; "let "; "var "; "export "]%string
  end.

Definition starter_match (l : lang) (line : pystr) : bool :=
  existsb (fun kw => startswith (lit kw) (lstrip line)) (starters l).

(** The [for line in lines] loop of [split_code_by_defs]. *)
Fixpoint group_blocks (l : lang) (lines : list pystr)
    (blocks : list (list pystr)) (current : list pystr)
  : list (list pystr) * list pystr :=
  match lines with
  | [] => (blocks, current)
  | line :: rest =>
      if starter_match l line && negb (is_empty current)
      then group_blocks l rest (blocks ++ [current]) [line]
      else group_blocks l rest blocks (current ++ [line])
  end.

Definition split_code_by_defs (fuel : nat) (text : pystr) (l : lang)
  : outcome (list pystr) :=
  if is_empty text then Ret []
  else
    let lines := split_char nl text in
    let '(blocks, current) := group_blocks l lines [] [] in
    let blocks := if is_empty current then blocks else blocks ++ [current] in
    let block_texts :=
      map (fun b => strip (join [nl] b))
          (filter (fun b => negb (is_empty (strip (join [nl] b)))) blocks) in
    if len block_texts <=? 1 then chunk_by_char fuel text 1000 200
    else Ret block_texts.

(** [re.split(r"(?m)^#{1,6}\s+", text)].  A match starts at the beginning of
    a line, takes one to six [#] and then all the whitespace that follows, of
    which there must be some; with seven or more [#] nothing matches.
    [heading_match] is the length of the match at the head of [s], 0 when
    there is none. *)
Fixpoint count_while (p : ascii -> bool) (s : pystr) : nat :=
  match s with
  | [] => O
  | c :: r => if p c then S (count_while p r) else O
  end.

Definition heading_match (s : pystr) : nat :=
  let k := count_while (Ascii.eqb "#"%char) s in
  let w := count_while isspace (skipn k s) in
  if ((1 <=? k) && (k <=? 6) && (1 <=? w))%nat then (k + w)%nat else O.

Definition cons_head (c : ascii) (parts : list pystr) : list pystr :=
  match parts with
  | h :: t => (c :: h) :: t
  | [] => [[c]]
  end.

(** [skip]: characters of the current match still to be dropped; [bol]:
    whether the position is at the beginning of a line. *)
Fixpoint split_headings (skip : nat) (bol : bool) (s : pystr) : list pystr :=
  match s with
  | [] => [[]]
  | c :: r =>
      match skip with
      | S k => split_headings k (Ascii.eqb c nl) r
      | O =>
          match (if bol then heading_match s else O) with
          | S m => [] :: split_headings m (Ascii.eqb c nl) r
          | O => cons_head c (split_headings 0 (Ascii.eqb c nl) r)
          end
      end
  end.

Definition re_split_headings (text : pystr) : list pystr :=
  split_headings 0 true text.

(** The chunk dictionaries that [chunk_file] returns. *)
Record metadata : Type := mk_metadata {
  repo : pystr;
  file_path : pystr;
  file_type_of : file_type;
  chunk_index : Z
}.

Record chunk : Type := mk_chunk {
  content : pystr;
  chunk_metadata : metadata
}.

(** [chunks.extend(chunk_by_char(part, ...))] for every part in turn. *)
Fixpoint chunk_each (fuel : nat) (parts : list pystr)
    (chunk_size_tokens overlap_tokens : Z) : outcome (list pystr) :=
  match parts with
  | [] => Ret []
  | part :: rest =>
      cs <- chunk_by_char fuel part chunk_size_tokens overlap_tokens ;;
      more <- chunk_each fuel rest chunk_size_tokens overlap_tokens ;;
      Ret (cs ++ more)
  end.

(** The [for i, chunk in enumerate(chunks)] loop of [chunk_file]. *)
Fixpoint emit (r p : pystr) (ft : file_type) (i : Z) (chunks : list pystr)
  : list chunk :=
  match chunks with
  | [] => []
  | c :: rest =>
      if is_empty (strip c) then emit r p ft (i + 1) rest
      else mk_chunk c (mk_metadata r p ft i) :: emit r p ft (i + 1) rest
  end.

Definition chunk_file (fuel : nat) (content_ r p : pystr)
    (chunk_size_tokens overlap_tokens : Z) : outcome (list chunk) :=
  let text_ := normalize_text content_ in
  let ft := detect_file_type p in
  chunks <-
    match ft with
    | markdown =>
        let parts := re_split_headings text_ in
        chunk_each fuel (filter (fun part => negb (is_empty (strip part))) parts)
          chunk_size_tokens overlap_tokens
    | code =>
        let ext := lower (splitext_ext p) in
        let l := if str_eqb ext (lit ".py") then python else js in
        code_blocks <- split_code_by_defs fuel text_ l ;;
        chunk_each fuel code_blocks chunk_size_tokens overlap_tokens
    | notebook => chunk_by_char fuel text_ chunk_size_tokens overlap_tokens
    | _ => chunk_by_char fuel text_ chunk_size_tokens overlap_tokens
    end ;;
  Ret (emit r p ft 0 chunks).

(** [chunk_folder] over what [os.walk] and the reads give: for every
    directory its path relative to the input directory ([os.path.relpath])
    and its files, each with its content or [None] when reading it raises.
    The result is the lines written to the output file, which is opened for
    writing and so starts empty, and the count returned. *)
Definition rel_path (rel_dir fn : pystr) : pystr :=
  if str_eqb rel_dir (lit ".") then fn else os_path_join rel_dir fn.

(** The [for chunk in chunks] loop. *)
Fixpoint write_chunks (chunks written : list chunk) (count : Z) : list chunk * Z :=
  match chunks with
  | [] => (written, count)
  | c :: rest => write_chunks rest (written ++ [c]) (count + 1)
  end.

(** The [for fn in files] loop. *)
Fixpoint chunk_folder_files (fuel : nat) (r : pystr)
    (chunk_size_tokens overlap_tokens : Z) (rel_dir : pystr)
    (files : list (pystr * option pystr)) (written : list chunk) (count : Z)
  : list chunk * outcome Z :=
  match files with
  | [] => (written, Ret count)
  | (fn, read) :: rest =>
      match read with
      | None =>
          chunk_folder_files fuel r chunk_size_tokens overlap_tokens rel_dir rest
            written count
      | Some content_ =>
          match chunk_file fuel content_ r (rel_path rel_dir fn)
                  chunk_size_tokens overlap_tokens with
          | Ret chunks =>
              let '(written, count) := write_chunks chunks written count in
              chunk_folder_files fuel r chunk_size_tokens overlap_tokens rel_dir rest
                written count
          | Raise e => (written, Raise e)
          | OutOfFuel => (written, OutOfFuel)
          end
      end
  end.

(** The [for root, _, files in os.walk(input_dir)] loop. *)
Fixpoint chunk_folder_dirs (fuel : nat) (r : pystr)
    (chunk_size_tokens overlap_tokens : Z)
    (walk : list (pystr * list (pystr * option pystr)))
    (written : list chunk) (count : Z) : list chunk * outcome Z :=
  match walk with
  | [] => (written, Ret count)
  | (rel_dir, files) :: rest =>
      match chunk_folder_files fuel r chunk_size_tokens overlap_tokens rel_dir files
              written count with
      | (written, Ret count) =>
          chunk_folder_dirs fuel r chunk_size_tokens overlap_tokens rest written count
      | (written, Raise e) => (written, Raise e)
      | (written, OutOfFuel) => (written, OutOfFuel)
      end
  end.

Definition chunk_folder (fuel : nat)
    (walk : list (pystr * list (pystr * option pystr))) (r : pystr)
    (chunk_size_tokens overlap_tokens : Z) : list chunk * outcome Z :=
  chunk_folder_dirs fuel r chunk_size_tokens overlap_tokens walk [] 0.

End Chunker.

(** ** src/retrieval/retriever.py *)

Module Retriever.

(** A retrieval result, as far as [build_context] reads it: the keys
    [document] and [metadata] may be absent ([None] here); the distance is
    never read. *)
Record result : Type := mk_result {
  r_id : pystr;
  r_document : option pyval;
  r_metadata : option dict
}.

Definition SEPARATOR : pystr := [nl; nl] ++ lit "---" ++ [nl; nl].

(** The block of the result of rank [i] (ranks start at 1). *)
Definition render_block (i : Z) (r : result) : pystr :=
  let meta := match r_metadata r with Some d => d | None => [] end in
  let file_path := dict_get meta "file_path" (VStr []) in
  let repo := dict_get meta "repo" (VStr []) in
  let chunk_index := dict_get meta "chunk_index" VNone in
  let header :=
    lit "[CTX #" ++ str_of_int i ++ lit "] " ++ format repo ++ lit " :: "
      ++ format file_path ++ lit " :: chunk " ++ format chunk_index in
  let body := match r_document r with Some v => v | None => VStr [] end in
  strip (header ++ [nl] ++ format body).

(** The [for i, r in enumerate(results, start=1)] loop, with its [break]. *)
Fixpoint accumulate (max_chars : Z) (i : Z) (total : Z) (parts : list pystr)
    (results : list result) : list pystr :=
  match results with
  | [] => parts
  | r :: rest =>
      let block := render_block i r in
      if max_chars <? total + len block + 2 then parts
      else accumulate max_chars (i + 1) (total + len block + 2)
             (parts ++ [block]) rest
  end.

Definition build_context (results : list result) (max_chars : Z) : pystr :=
  join SEPARATOR (accumulate max_chars 1 0 [] results).

(** [vecs[0]] on an empty list. *)
Inductive index_error : Type := IndexError.

(** [embed_query], over the embedding model it calls. *)
Definition embed_query {vec : Type}
    (embed_texts_sbert : string -> list pystr -> outcome (list vec))
    (query : pystr) (model : string) : outcome (index_error + vec) :=
  if is_empty query || is_empty (strip query)
  then Raise (ValueError "Query is empty")
  else
    vecs <- embed_texts_sbert model [strip query] ;;
    match vecs with
    | v :: _ => Ret (inr v)
    | [] => Ret (inl IndexError)
    end.

End Retriever.

(** ** src/generation/prompt.py *)

Module Prompt.

Definition TOKEN_TO_CHAR : Z := 4.

Definition allowed_context_chars (n_ctx max_answer_tokens prompt_overhead_tokens : Z)
  : Z :=
  let ctx_tokens_for_context :=
    Z.max 256 (n_ctx - max_answer_tokens - prompt_overhead_tokens) in
  Z.max 1024 (ctx_tokens_for_context * TOKEN_TO_CHAR).

(** The default value of [prompt_overhead_tokens]. *)
Definition default_overhead : Z := 400.

(** The label of a result in [format_sources]. *)
Definition source_label (r : Retriever.result) : pyval :=
  let meta := match Retriever.r_metadata r with Some d => d | None => [] end in
  let repo := dict_get meta "repo" (VStr []) in
  let path := dict_get meta "file_path" (VStr []) in
  if truthy repo then VStr (format repo ++ lit " :: " ++ format path) else path.

(** The loop of [format_sources]; the labels appended to [out] are returned
    in the order in which they are appended. *)
Fixpoint format_sources_from (seen : list pyval) (results : list Retriever.result)
  : list pyval :=
  match results with
  | [] => []
  | r :: rest =>
      let label := source_label r in
      if truthy label && negb (existsb (pyval_eqb label) seen)
      then label :: format_sources_from (label :: seen) rest
      else format_sources_from seen rest
  end.

Definition format_sources (results : list Retriever.result) : list pyval :=
  format_sources_from [] results.

End Prompt.

(** ** src/ingest/embeddings.py *)

Module Embeddings.

(** A line of the chunk file as [load_jsonl_chunks] returns it: a dictionary
    of which the indexer reads the keys [content] and [metadata]. *)
Record chunk_record : Type := mk_chunk_record {
  rec_content : option pystr;
  rec_metadata : option dict
}.

Definition record_meta (rec : chunk_record) : dict :=
  match rec_metadata rec with Some d => d | None => [] end.

Definition record_doc (rec : chunk_record) : pystr :=
  match rec_content rec with Some c => c | None => [] end.

(** The deterministic id computed in the loop of [process_and_store]. *)
Definition record_id (idx : Z) (rec : chunk_record) : pystr :=
  let meta := record_meta rec in
  let repo := dict_get meta "repo" (VStr []) in
  let file_path := dict_get meta "file_path" (VStr []) in
  let chunk_index := dict_get meta "chunk_index" (VInt idx) in
  format repo ++ lit "::" ++ format file_path ++ lit "::" ++ format chunk_index.

(** The [for idx, rec in enumerate(chunks)] loop: the three lists [ids],
    [metadatas] and [docs]. *)
Fixpoint prepare (idx : Z) (chunks : list chunk_record)
  : list pystr * list dict * list pystr :=
  match chunks with
  | [] => ([], [], [])
  | rec :: rest =>
      let '(ids, metadatas, docs) := prepare (idx + 1) rest in
      (record_id idx rec :: ids,
       record_meta rec :: metadatas,
       record_doc rec :: docs)
  end.

Definition zip3 {A B C : Type} (a : list A) (b : list B) (c : list C)
  : list (A * B * C) := combine (combine a b) c.

(** The generator [batchify]. *)
Fixpoint batchify_from {A : Type} (batch_size : Z) (batch : list A)
    (items : list A) : list (list A) :=
  match items with
  | [] => if is_empty batch then [] else [batch]
  | item :: rest =>
      let batch := batch ++ [item] in
      if batch_size <=? len batch then batch :: batchify_from batch_size [] rest
      else batchify_from batch_size batch rest
  end.

Definition batchify {A : Type} (items : list A) (batch_size : Z) : list (list A) :=
  batchify_from batch_size [] items.

Section Indexer.

(** The embedding vectors, the embedding model and the vector store are
    outside the repository. *)
Variable vec : Type.
Variable embed_texts_sbert : string -> list pystr -> outcome (list vec).

(** What is stored: [(id, document, metadata, embedding)]. *)
Record entry : Type := mk_entry {
  e_id : pystr;
  e_document : pystr;
  e_metadata : dict;
  e_embedding : vec
}.

Variable collection_add : list entry -> list entry -> outcome (list entry).

(** The collection of the vector store and the lines of
    [embeddings_backup.jsonl] in the target directory. *)
Record world : Type := mk_world {
  collection : list entry;
  backup_log : list entry
}.

(** How opening the store goes: [import chromadb] may fail, the persistent
    client may fail, and then the in-memory client may fail. *)
Record store_env : Type := mk_store_env {
  chromadb_installed : bool;
  persistent_client_ok : bool;
  memory_client_ok : bool
}.

Definition zip4 (ids docs : list pystr) (metas : list dict) (embs : list vec)
  : list entry :=
  map (fun '(i, d, m, e) => mk_entry i d m e)
      (combine (combine (combine ids docs) metas) embs).

Definition sbert_model (model : string) : string :=
  if (String.prefix "sentence-transformers/" model
      || String.eqb model "all-MiniLM-L6-v2")%bool
  then model else "sentence-transformers/all-MiniLM-L6-v2"%string.

(** The [for batch_idx, doc_batch in enumerate(batchify(...))] loop. *)
Fixpoint store_batches (fallback_backup : bool) (model : string)
    (batches : list (list (pystr * pystr * dict))) (w : world) (total : Z)
  : world * outcome Z :=
  match batches with
  | [] => (w, Ret total)
  | doc_batch :: rest =>
      let batch_ids := map (fun '(i, _, _) => i) doc_batch in
      let batch_docs := map (fun '(_, d, _) => d) doc_batch in
      let batch_metas := map (fun '(_, _, m) => m) doc_batch in
      let model := sbert_model model in
      match embed_texts_sbert model batch_docs with
      | Raise e => (w, Raise e)
      | OutOfFuel => (w, OutOfFuel)
      | Ret embeddings =>
          let entries := zip4 batch_ids batch_docs batch_metas embeddings in
          if negb fallback_backup then
            match collection_add (collection w) entries with
            | Raise e => (w, Raise e)
            | OutOfFuel => (w, OutOfFuel)
            | Ret c =>
                store_batches fallback_backup model rest
                  (mk_world c (backup_log w)) (total + len batch_docs)
            end
          else
            store_batches fallback_backup model rest
              (mk_world (collection w) (backup_log w ++ entries))
              (total + len batch_docs)
      end
  end.

Definition process_and_store (env : store_env) (chunks : list chunk_record)
    (collection_name : string) (model : string) (batch_size : Z) (w : world)
  : world * outcome (Z * string) :=
  if negb (chromadb_installed env)
  then (w, Raise (RuntimeError "The `chromadb` package is required."))
  else
    let fallback_backup := negb (persistent_client_ok env) in
    if fallback_backup && negb (memory_client_ok env)
    then (w, Raise (RuntimeError "chromadb.Client"))
    else
      let '(ids, metadatas, docs) := prepare 0 chunks in
      let '(w', r) :=
        store_batches fallback_backup model
          (batchify (zip3 ids docs metadatas) batch_size) w 0 in
      (w', total <- r ;; Ret (total, collection_name)).

End Indexer.

Arguments e_id {vec} _.
Arguments e_document {vec} _.
Arguments e_metadata {vec} _.
Arguments e_embedding {vec} _.
Arguments collection {vec} _.
Arguments backup_log {vec} _.
Arguments mk_world {vec} _ _.
Arguments mk_entry {vec} _ _ _ _.

End Embeddings.

(** ** src/generation/llm.py *)

Module Llm.

(** What one [requests.post] does: a response with a status, or an
    exception (connection error, timeout). *)
Inductive post_result : Type :=
| Response (status_code : Z) (text : pystr)
| PostRaises (e : exn).

(** The body of the [try]: [inl] is the exception caught by
    [except Exception], [inr] the response that leaves the loop. *)
Definition attempt (r : post_result) : exn + pystr :=
  match r with
  | PostRaises e => inl e
  | Response status_code text =>
      if existsb (Z.eqb status_code) [429; 500; 502; 503; 504]
      then inl (RuntimeError "HTTP")
      else if (400 <=? status_code) && (status_code <? 600)
      then inl (HTTPError status_code)
      else inr text
  end.

(** A run of the retry loop: its result, the number of requests sent and the
    sleeps taken between them, in seconds. *)
Record run : Type := mk_run {
  run_result : outcome pystr;
  run_posts : Z;
  run_sleeps : list Z
}.

(** The [while True] loop; [server n] is what the [n]-th request does. *)
Fixpoint retry_loop (fuel : nat) (server : Z -> post_result)
    (attempts backoff : Z) (slept : list Z) : run :=
  match fuel with
  | O => mk_run OutOfFuel attempts slept
  | S fuel' =>
      let attempts := attempts + 1 in
      match attempt (server attempts) with
      | inr text => mk_run (Ret text) attempts slept
      | inl e =>
          if 3 <=? attempts
          then mk_run
                 (Raise (RuntimeError "OpenAI-compatible request failed"))
                 attempts slept
          else retry_loop fuel' server attempts (backoff * 2) (slept ++ [backoff])
      end
  end.

(** The call, up to the response body that leaves the loop (decoding the
    body is left out). *)
Definition generate_with_openai_compatible (fuel : nat)
    (server : Z -> post_result) : run :=
  retry_loop fuel server 0 1 [].

End Llm.

(** ** Vocabulary of the properties *)

Module Props.

Import Chunker Retriever Embeddings Llm.

(** The integers [i, i+1, ..., i+n-1]. *)
Fixpoint zrange (i : Z) (n : nat) : list Z :=
  match n with
  | O => []
  | S n' => i :: zrange (i + 1) n'
  end.

(** A computation that takes a budget of loop iterations: it returns [a]
    when every large enough budget gives [a]; it diverges when no budget is
    enough; it is monotone when a larger budget never changes a result. *)
Definition returns {A : Type} (run : nat -> outcome A) (a : A) : Prop :=
  exists fuel0 : nat, forall fuel : nat, (fuel0 <= fuel)%nat -> run fuel = Ret a.

Definition diverges {A : Type} (run : nat -> outcome A) : Prop :=
  forall fuel : nat, run fuel = OutOfFuel.

Definition monotone {A : Type} (run : nat -> outcome A) : Prop :=
  forall (fuel fuel' : nat) (a : A),
    run fuel = Ret a -> (fuel <= fuel')%nat -> run fuel' = Ret a.

(** What every chunk of [chunk_by_char] satisfies. *)
Definition chunks_ok (chunk_size_tokens : Z) (chunks : list pystr) : Prop :=
  Forall (fun c => is_empty (strip c) = false /\ len c <= chunk_size_tokens * 4)
    chunks.

(** A string that does not begin with whitespace. *)
Definition starts_nonspace (s : pystr) : Prop :=
  match s with
  | [] => True
  | c :: _ => isspace c = false
  end.


(** The rendered blocks of a list of results whose first rank is [i]. *)
Fixpoint blocks_from (i : Z) (results : list result) : list pystr :=
  match results with
  | [] => []
  | r :: rest => render_block i r :: blocks_from (i + 1) rest
  end.

(** What [build_context] counts against [max_chars]: the length of every
    block plus 2. *)
Fixpoint budget (blocks : list pystr) : Z :=
  match blocks with
  | [] => 0
  | b :: rest => len b + 2 + budget rest
  end.

Fixpoint total_len (blocks : list pystr) : Z :=
  match blocks with
  | [] => 0
  | b :: rest => len b + total_len rest
  end.

(** A result without document and metadata; its block is 27 characters
    long. *)
Definition bare_result : result := mk_result (lit "id") None None.

(** A result whose block is 500 characters long. *)
Definition long_result : result :=
  mk_result (lit "id") (Some (VStr (repeat "x"%char 472))) None.

(** A Python file with two definitions. *)
Definition two_defs : pystr :=
  lit "def f():
    pass

def g():
    pass
".

(** A markdown file with a preamble and two sections. *)
Definition readme_example : pystr :=
  lit "intro
## A
body a
## B
body b".

(** [file_type] as the string stored in the metadata. *)
Definition file_type_name (ft : file_type) : pystr :=
  match ft with
  | markdown => lit "markdown"
  | code => lit "code"
  | config => lit "config"
  | notebook => lit "notebook"
  | text => lit "text"
  end.

(** A chunk written by [chunk_folder] ([json.dumps]) and read back by
    [load_jsonl_chunks] ([json.loads]). *)
Definition jsonl_record (c : chunk) : chunk_record :=
  let m := chunk_metadata c in
  mk_chunk_record (Some (content c))
    (Some [("repo"%string, VStr (repo m));
           ("file_path"%string, VStr (file_path m));
           ("file_type"%string, VStr (file_type_name (file_type_of m)));
           ("chunk_index"%string, VInt (chunk_index m))]).

(** The ids the indexer derives for a list of records. *)
Definition record_ids (recs : list chunk_record) : list pystr :=
  fst (fst (prepare 0 recs)).

Definition joined_id (r p : pystr) (i : Z) : pystr :=
  r ++ lit "::" ++ p ++ lit "::" ++ str_of_int i.

(** [enumerate(l)]. *)
Definition numbered {A : Type} (l : list A) : list (Z * A) :=
  combine (zrange 0 (length l)) l.

(** What the indexer prepares for the record at position [idx]: its id, its
    document and its metadata, through the helpers of the indexer. *)
Definition backup_fields (numbered_rec : Z * chunk_record) : pystr * pystr * dict :=
  let '(idx, rec) := numbered_rec in
  (record_id idx rec, record_doc rec, record_meta rec).

(** What the claim on the backup log speaks of, written from the keys of the
    chunk record and not from the helpers of the indexer: the document of a
    record is its [content] (empty when the key is missing), and the line
    [{id, document, metadata, embedding}] of the record at position [idx] has
    the id [repo::file_path::chunk_index] (a missing [repo] or [file_path] is
    empty, a missing [chunk_index] is the position), the document, the
    metadata dictionary and the embedding. *)
Definition documents_of (chunks : list chunk_record) : list pystr :=
  map (fun rec => match rec_content rec with Some c => c | None => [] end) chunks.

Definition backup_line {vec : Type} (idx : Z) (rec : chunk_record) (embedding : vec)
  : entry vec :=
  let meta := match rec_metadata rec with Some d => d | None => [] end in
  mk_entry
    (format (dict_get meta "repo" (VStr [])) ++ lit "::"
       ++ format (dict_get meta "file_path" (VStr [])) ++ lit "::"
       ++ format (dict_get meta "chunk_index" (VInt idx)))
    (match rec_content rec with Some c => c | None => [] end)
    meta
    embedding.

(** One line per record and vector, in the order of the records. *)
Definition backup_lines {vec : Type} (chunks : list chunk_record) (vectors : list vec)
  : list (entry vec) :=
  map (fun '((idx, rec), v) => backup_line idx rec v) (combine (numbered chunks) vectors).

(** The model name that reaches the embedding model: the requested one when
    it names a Sentence-Transformers model, MiniLM otherwise. *)
Definition model_passed (model : string) : string :=
  if (String.prefix "sentence-transformers/" model
      || String.eqb model "all-MiniLM-L6-v2")%bool
  then model else "sentence-transformers/all-MiniLM-L6-v2"%string.

(** The vectors are what the embedding model returns for the documents,
    taken in consecutive groups. *)
Definition embedded_in_batches {vec : Type} (embed : list pystr -> outcome (list vec))
    (documents : list pystr) (vectors : list vec) : Prop :=
  exists (groups : list (list pystr)) (vss : list (list vec)),
    concat groups = documents
    /\ Forall2 (fun g vs => embed g = Ret vs) groups vss
    /\ concat vss = vectors.

(** The world after [entries] went to the store of the mode: to the backup
    log in fallback mode, to the collection otherwise. *)
Definition stored_in {vec : Type} (fallback_backup : bool) (w : world vec)
    (entries : list (entry vec)) : world vec :=
  if fallback_backup then mk_world (collection w) (backup_log w ++ entries)
  else mk_world (collection w ++ entries) (backup_log w).

(** The entries of one batch, given the vectors of the batch. *)
Definition batch_entries {vec : Type} (batch : list (pystr * pystr * dict))
    (vs : list vec) : list (entry vec) :=
  map (fun '((i, d, m), v) => mk_entry i d m v) (combine batch vs).

(** The metadata dictionary of the record at position [j]. *)
Definition record_meta_of (chunks : list chunk_record) (j : nat) : dict :=
  match nth_error chunks j with
  | Some rec => match rec_metadata rec with Some d => d | None => [] end
  | None => []
  end.

(** An embedding model whose vector for a text is the length of the text,
    and a store that appends. *)
Definition length_embed (model : string) (texts : list pystr) : outcome (list Z) :=
  Ret (map (fun t => len t) texts).

Definition append_entries (c es : list (entry Z)) : outcome (list (entry Z)) :=
  Ret (c ++ es).

(** The run in which the persistent client cannot be opened. *)
Definition fallback_env : store_env := mk_store_env true false true.

Definition three_records : list chunk_record :=
  [mk_chunk_record (Some (lit "alpha"))
     (Some [("repo"%string, VStr (lit "o/r")); ("file_path"%string, VStr (lit "a.md"));
            ("file_type"%string, VStr (lit "markdown")); ("chunk_index"%string, VInt 0)]);
   mk_chunk_record (Some (lit "beta"))
     (Some [("repo"%string, VStr (lit "o/r")); ("file_path"%string, VStr (lit "a.md"));
            ("file_type"%string, VStr (lit "markdown")); ("chunk_index"%string, VInt 1)]);
   mk_chunk_record (Some (lit "alpha"))
     (Some [("repo"%string, VStr (lit "o/r")); ("file_path"%string, VStr (lit "b.md"));
            ("file_type"%string, VStr (lit "markdown")); ("chunk_index"%string, VInt 0)])].

(** A backend that answers every request with status 404. *)
Definition always_404 : Z -> post_result :=
  fun _ => Response 404 (lit "Not Found").

(** The text that a list of consecutive windows stands for: the first
    window, then every later window without the [overlap] characters it
    shares with the one before. *)
Definition reassemble (overlap : nat) (chunks : list pystr) : pystr :=
  match chunks with
  | [] => []
  | c :: rest => c ++ concat (map (skipn overlap) rest)
  end.

(** The first line of a block is a block starter; no later line is one. *)
Definition starts_block (l : lang) (block : list pystr) : Prop :=
  match block with
  | [] => False
  | line :: _ => starter_match l line = true
  end.

Definition no_starter_inside (l : lang) (block : list pystr) : Prop :=
  Forall (fun line => starter_match l line = false) (tl block).

(** No more than three newlines in a row, that is no more than two empty
    lines in a row; [run] counts the newlines just before [s]. *)
Fixpoint newline_runs_ok (run : nat) (s : pystr) : bool :=
  match s with
  | [] => true
  | c :: r =>
      if Ascii.eqb c nl then (run <? 3)%nat && newline_runs_ok (S run) r
      else newline_runs_ok 0 r
  end.

(** No more than two empty lines in a row; [run] counts the empty lines just
    before [lines]. *)
Fixpoint blank_lines_ok (run : nat) (lines : list pystr) : bool :=
  match lines with
  | [] => true
  | l :: rest =>
      if is_empty l then (run <? 2)%nat && blank_lines_ok (S run) rest
      else blank_lines_ok 0 rest
  end.

(** A chunk written by [chunk_folder] for the repo [r]: it is not empty and
    it comes from a file of the walk that could be read. *)
Definition from_readable_file (r : pystr)
    (walk : list (pystr * list (pystr * option pystr))) (c : chunk) : Prop :=
  repo (chunk_metadata c) = r
  /\ content c <> []
  /\ exists rel_dir files fn content_,
       In (rel_dir, files) walk /\ In (fn, Some content_) files
       /\ file_path (chunk_metadata c) = rel_path rel_dir fn.

(** A folder with a readable file, an unreadable one and a sub-directory. *)
Definition small_walk : list (pystr * list (pystr * option pystr)) :=
  [(lit ".", [(lit "README.md", Some readme_example); (lit "logo.png", None)]);
   (lit "pkg", [(lit "mod.py", Some two_defs)])].

(** A backend that fails twice (503, then 404) and then answers. *)
Definition flaky_server : Z -> post_result :=
  fun n =>
    if n =? 1 then Response 503 (lit "busy")
    else if n =? 2 then Response 404 (lit "Not Found")
    else Response 200 (lit "ok").

(** An embedding model that returns one (empty) vector per text, and a store
    that appends. *)
Definition unit_embed (model : string) (texts : list pystr) : outcome (list unit) :=
  Ret (map (fun _ => tt) texts).

Definition append_add (c es : list (entry unit)) : outcome (list (entry unit)) :=
  Ret (c ++ es).

End Props.

Import Chunker Retriever Prompt Embeddings Llm Props.

(** * Properties *)

(** ** Budget arithmetic *)

(** C4: [allowed_context_chars] is non-increasing in [max_answer_tokens],
    never returns less than 1024, and is [max(256, n_ctx - max_answer_tokens
    - overhead)] tokens at 4 characters per token, floored at 1024. *)
Theorem allowed_context_chars_monotone :
  forall n_ctx a1 a2 overhead : Z,
    a1 <= a2 ->
    allowed_context_chars n_ctx a2 overhead <= allowed_context_chars n_ctx a1 overhead
    /\ 1024 <= allowed_context_chars n_ctx a1 overhead
    /\ allowed_context_chars n_ctx a1 overhead
       = Z.max 1024 (Z.max 256 (n_ctx - a1 - overhead) * 4)
    /\ allowed_context_chars n_ctx a1 overhead
       = 4 * Z.max 256 (n_ctx - a1 - overhead).
Proof.
  intros n_ctx a1 a2 overhead Hle.
  unfold allowed_context_chars, Prompt.TOKEN_TO_CHAR.
  repeat split; lia.
Qed.

Lemma allowed_context_chars_monotone_witness :
  allowed_context_chars 4096 800 default_overhead
    <= allowed_context_chars 4096 400 default_overhead
  /\ 1024 <= allowed_context_chars 4096 400 default_overhead
  /\ allowed_context_chars 4096 400 default_overhead
     = Z.max 1024 (Z.max 256 (4096 - 400 - default_overhead) * 4)
  /\ allowed_context_chars 4096 400 default_overhead
     = 4 * Z.max 256 (4096 - 400 - default_overhead).
Proof.
  apply (allowed_context_chars_monotone 4096 400 800 default_overhead).
  lia.
Defined.

(** ** Context assembly *)

Lemma len_app {A : Type} (a b : list A) : len (a ++ b) = len a + len b.
Proof. unfold len. rewrite length_app. lia. Qed.

Lemma len_nonneg {A : Type} (a : list A) : 0 <= len a.
Proof. unfold len. lia. Qed.

Lemma len_cons {A : Type} (x : A) (a : list A) : len (x :: a) = 1 + len a.
Proof. unfold len. simpl length. lia. Qed.

Lemma budget_total_len (blocks : list pystr) :
  budget blocks = total_len blocks + 2 * len blocks.
Proof.
  induction blocks as [|b rest IH]; [reflexivity|].
  simpl budget. simpl total_len. rewrite len_cons. lia.
Qed.

Lemma join_len (sep : pystr) (blocks : list pystr) :
  blocks <> [] ->
  len (join sep blocks) = total_len blocks + len sep * (len blocks - 1).
Proof.
  induction blocks as [|b rest IH]; [congruence|]. intros _.
  destruct rest as [|b' rest'].
  - simpl join. simpl total_len. change (len [b]) with 1. lia.
  - change (join sep (b :: b' :: rest')) with (b ++ sep ++ join sep (b' :: rest')).
    rewrite !len_app, IH by congruence.
    change (total_len (b :: b' :: rest')) with (len b + total_len (b' :: rest')).
    rewrite (len_cons b). lia.
Qed.

(** The loop keeps the blocks of a prefix: the longest one whose budget
    fits. *)
Lemma accumulate_prefix :
  forall (results : list result) (max_chars i total : Z) (parts : list pystr),
  exists k : nat,
    (k <= length results)%nat
    /\ accumulate max_chars i total parts results
       = parts ++ firstn k (blocks_from i results)
    /\ ((0 < k)%nat -> total + budget (firstn k (blocks_from i results)) <= max_chars)
    /\ ((k < length results)%nat ->
        max_chars < total + budget (firstn (S k) (blocks_from i results))).
Proof.
  induction results as [|r rest IH]; intros max_chars i total parts.
  - exists 0%nat. simpl. rewrite app_nil_r. repeat split; lia.
  - simpl accumulate.
    destruct (max_chars <? total + len (render_block i r) + 2) eqn:E.
    + exists 0%nat. apply Z.ltb_lt in E.
      change (firstn 0 (blocks_from i (r :: rest))) with (@nil pystr).
      change (budget (firstn 1 (blocks_from i (r :: rest))))
        with (len (render_block i r) + 2 + 0).
      rewrite app_nil_r. simpl length. repeat split; lia.
    + apply Z.ltb_ge in E.
      destruct (IH max_chars (i + 1) (total + len (render_block i r) + 2)
                  (parts ++ [render_block i r])) as (k & Hk & Heq & Hfit & Hnext).
      exists (S k). simpl length. 
      change (blocks_from i (r :: rest))
        with (render_block i r :: blocks_from (i + 1) rest).
      repeat split.
      * lia.
      * rewrite Heq, <- app_assoc. reflexivity.
      * intros _.
        change (firstn (S k) (render_block i r :: blocks_from (i + 1) rest))
          with (render_block i r :: firstn k (blocks_from (i + 1) rest)).
        remember (firstn k (blocks_from (i + 1) rest)) as tl.
        change (budget (render_block i r :: tl))
          with (len (render_block i r) + 2 + budget tl).
        destruct k as [|k']; [subst tl; simpl; lia|].
        assert (0 < S k')%nat as Hpos by lia. specialize (Hfit Hpos). lia.
      * intros Hlt.
        assert (k < length rest)%nat as Hlt' by lia. specialize (Hnext Hlt').
        change (firstn (S (S k)) (render_block i r :: blocks_from (i + 1) rest))
          with (render_block i r :: firstn (S k) (blocks_from (i + 1) rest)).
        remember (firstn (S k) (blocks_from (i + 1) rest)) as tl.
        change (budget (render_block i r :: tl))
          with (len (render_block i r) + 2 + budget tl). lia.
Qed.

Lemma blocks_from_length (results : list result) (i : Z) :
  length (blocks_from i results) = length results.
Proof.
  revert i. induction results as [|r rest IH]; intros i; simpl; [|rewrite IH]; reflexivity.
Qed.

Lemma SEPARATOR_len : len SEPARATOR = 7.
Proof. reflexivity. Qed.

(** C1 (as the code has it): [build_context] returns the blocks of a prefix
    of the results, in rank order and whole, joined by the separator; the
    prefix is the longest one whose lengths plus 2 per block sum to at most
    [max_chars]; the string is 7 characters per separator longer than its
    blocks, so its length is at most [max_chars + 5k - 7] for [k >= 1]
    blocks. *)
Theorem build_context_prefix_budget :
  forall (results : list result) (max_chars : Z),
  exists k : nat,
    let blocks := firstn k (blocks_from 1 results) in
    (k <= length results)%nat
    /\ build_context results max_chars = join SEPARATOR blocks
    /\ ((0 < k)%nat -> budget blocks <= max_chars)
    /\ ((k < length results)%nat ->
        max_chars < budget (firstn (S k) (blocks_from 1 results)))
    /\ ((0 < k)%nat ->
        len (build_context results max_chars)
        = total_len blocks + 7 * (Z.of_nat k - 1))
    /\ ((0 < k)%nat ->
        len (build_context results max_chars) <= max_chars + 5 * Z.of_nat k - 7)
    /\ (k = 0%nat -> build_context results max_chars = []).
Proof.
  intros results max_chars.
  destruct (accumulate_prefix results max_chars 1 0 []) as (k & Hk & Heq & Hfit & Hnext).
  exists k. cbv zeta. unfold build_context. rewrite Heq. simpl app.
  assert (length (firstn k (blocks_from 1 results)) = k) as Hlen.
  { rewrite length_firstn, blocks_from_length. lia. }
  assert ((0 < k)%nat ->
          len (join SEPARATOR (firstn k (blocks_from 1 results)))
          = total_len (firstn k (blocks_from 1 results)) + 7 * (Z.of_nat k - 1)) as Hjoin.
  { intros Hpos. rewrite join_len, SEPARATOR_len.
    - replace (len (firstn k (blocks_from 1 results))) with (Z.of_nat k)
        by (unfold len; rewrite Hlen; reflexivity).
      reflexivity.
    - intros Hnil. rewrite Hnil in Hlen. simpl in Hlen. lia. }
  repeat split.
  - exact Hk.
  - intros Hpos. specialize (Hfit Hpos). lia.
  - intros Hlt. specialize (Hnext Hlt). lia.
  - exact Hjoin.
  - intros Hpos. rewrite (Hjoin Hpos). specialize (Hfit Hpos).
    rewrite budget_total_len in Hfit.
    replace (len (firstn k (blocks_from 1 results))) with (Z.of_nat k) in Hfit
      by (unfold len; rewrite Hlen; reflexivity).
    lia.
  - intros Hz. subst k. reflexivity.
Qed.

(** Two results of 27 characters each fit a budget of 58 (27 + 2 twice), and
    the string returned is 61 characters long. *)
Lemma build_context_exceeds_max_chars :
  len (build_context [bare_result; bare_result] 58) = 61
  /\ 58 < len (build_context [bare_result; bare_result] 58).
Proof. split; vm_compute; reflexivity. Qed.

(** ** Stripping and slicing *)

Lemma lstrip_length (s : pystr) : (length (lstrip s) <= length s)%nat.
Proof.
  induction s as [|c r IH]; simpl; [lia|].
  destruct (isspace c); simpl; lia.
Qed.

Lemma rstrip_length (s : pystr) : (length (rstrip s) <= length s)%nat.
Proof.
  unfold rstrip. rewrite length_rev.
  pose proof (lstrip_length (rev s)) as H. rewrite length_rev in H. exact H.
Qed.

Lemma strip_length (s : pystr) : (length (strip s) <= length s)%nat.
Proof.
  unfold strip.
  pose proof (rstrip_length (lstrip s)). pose proof (lstrip_length s). lia.
Qed.

Lemma lstrip_starts_nonspace (s : pystr) : starts_nonspace (lstrip s).
Proof.
  induction s as [|c r IH]; simpl; [exact I|].
  destruct (isspace c) eqn:E; [exact IH|exact E].
Qed.

Lemma lstrip_fixed (s : pystr) : starts_nonspace s -> lstrip s = s.
Proof.
  destruct s as [|c r]; simpl; [reflexivity|]. intros H. rewrite H. reflexivity.
Qed.

Lemma lstrip_idem (s : pystr) : lstrip (lstrip s) = lstrip s.
Proof. apply lstrip_fixed, lstrip_starts_nonspace. Qed.

Lemma lstrip_snoc (u : pystr) (c : ascii) :
  isspace c = false -> lstrip (u ++ [c]) = lstrip u ++ [c].
Proof.
  intros Hc. induction u as [|a u IH]; simpl.
  - rewrite Hc. reflexivity.
  - destruct (isspace a); [exact IH|reflexivity].
Qed.

Lemma rstrip_cons_nonspace (c : ascii) (t : pystr) :
  isspace c = false -> rstrip (c :: t) = c :: rstrip t.
Proof.
  intros Hc. unfold rstrip. simpl rev.
  rewrite (lstrip_snoc _ _ Hc), rev_app_distr. reflexivity.
Qed.

Lemma rstrip_starts_nonspace (t : pystr) :
  starts_nonspace t -> starts_nonspace (rstrip t).
Proof.
  destruct t as [|c t]; [intros _; exact I|].
  simpl. intros Hc. rewrite (rstrip_cons_nonspace _ _ Hc). exact Hc.
Qed.

Lemma rstrip_idem (s : pystr) : rstrip (rstrip s) = rstrip s.
Proof. unfold rstrip. rewrite rev_involutive, lstrip_idem. reflexivity. Qed.

Lemma strip_idem (s : pystr) : strip (strip s) = strip s.
Proof.
  unfold strip.
  rewrite (lstrip_fixed (rstrip (lstrip s))).
  - apply rstrip_idem.
  - apply rstrip_starts_nonspace, lstrip_starts_nonspace.
Qed.

Lemma strip_len (s : pystr) : len (strip s) <= len s.
Proof. unfold len. pose proof (strip_length s). lia. Qed.

(** A window that starts inside the text holds at most [hi - lo]
    characters. *)
Lemma slice_len {A : Type} (s : list A) (lo hi : Z) :
  0 <= lo -> lo <= hi -> len (slice s lo hi) <= hi - lo.
Proof.
  intros Hlo Hhi. unfold slice, clamp_index.
  pose proof (len_nonneg s) as Hn.
  destruct (lo <? 0) eqn:E1; [apply Z.ltb_lt in E1; lia|].
  destruct (hi <? 0) eqn:E2; [apply Z.ltb_lt in E2; lia|].
  unfold len at 1. rewrite length_firstn. lia.
Qed.

(** A window that reaches the end of the text is the tail of the text. *)
Lemma slice_tail {A : Type} (s : list A) (lo hi : Z) :
  0 <= lo -> lo <= len s -> len s <= hi ->
  slice s lo hi = skipn (Z.to_nat lo) s.
Proof.
  intros Hlo Hle Hhi. unfold slice, clamp_index.
  destruct (lo <? 0) eqn:E1; [apply Z.ltb_lt in E1; lia|].
  destruct (hi <? 0) eqn:E2; [apply Z.ltb_lt in E2; lia|].
  rewrite (Z.min_l lo) by lia. rewrite (Z.min_r hi) by lia.
  apply firstn_all2. rewrite length_skipn. unfold len. lia.
Qed.

(** ** The loop of [chunk_by_char] *)

Lemma chunk_loop_step (fuel : nat) (text : pystr) (cs ov start : Z)
    (chunks : list pystr) :
  chunk_loop (S fuel) text cs ov start chunks
  = if start <? len text then
      if len text <=? start + cs
      then Some (chunks ++ [slice text start (start + cs)])
      else chunk_loop fuel text cs ov (Z.max 0 (start + cs - ov))
             (chunks ++ [slice text start (start + cs)])
    else Some chunks.
Proof. reflexivity. Qed.


(** More fuel does not change a result. *)
Lemma chunk_loop_mono (text : pystr) (cs ov : Z) :
  forall (fuel fuel' : nat) (start : Z) (chunks out : list pystr),
    chunk_loop fuel text cs ov start chunks = Some out ->
    (fuel <= fuel')%nat ->
    chunk_loop fuel' text cs ov start chunks = Some out.
Proof.
  induction fuel as [|fuel IH]; intros fuel' start chunks out H Hle.
  - discriminate H.
  - destruct fuel' as [|fuel']; [lia|].
    rewrite chunk_loop_step in *.
    destruct (start <? len text); [|exact H].
    destruct (len text <=? start + cs); [exact H|].
    apply IH; [exact H|lia].
Qed.

(** With an overlap smaller than the chunk size every iteration moves the
    start forward, so the loop ends within [len text - start] iterations. *)
Lemma chunk_loop_terminates (text : pystr) (cs ov : Z) :
  0 < cs -> ov < cs ->
  forall (fuel : nat) (start : Z) (chunks : list pystr),
    0 <= start ->
    (Z.to_nat (len text - start) < fuel)%nat ->
    exists out, chunk_loop fuel text cs ov start chunks = Some out.
Proof.
  intros Hcs Hov.
  induction fuel as [|fuel IH]; intros start chunks Hstart Hfuel; [lia|].
  rewrite chunk_loop_step.
  destruct (start <? len text) eqn:E1; [|eexists; reflexivity].
  destruct (len text <=? start + cs) eqn:E2; [eexists; reflexivity|].
  apply Z.ltb_lt in E1. apply Z.leb_gt in E2.
  apply IH; lia.
Qed.

(** No window is longer than the chunk size. *)
Lemma chunk_loop_bound (text : pystr) (cs ov : Z) :
  0 < cs ->
  forall (fuel : nat) (start : Z) (chunks out : list pystr),
    0 <= start ->
    Forall (fun c => len c <= cs) chunks ->
    chunk_loop fuel text cs ov start chunks = Some out ->
    Forall (fun c => len c <= cs) out.
Proof.
  intros Hcs.
  induction fuel as [|fuel IH]; intros start chunks out Hstart Hall H.
  - discriminate H.
  - rewrite chunk_loop_step in H.
    assert (Forall (fun c => len c <= cs) (chunks ++ [slice text start (start + cs)]))
      as Hall'.
    { apply Forall_app. split; [exact Hall|].
      constructor; [|constructor].
      pose proof (slice_len text start (start + cs)). lia. }
    destruct (start <? len text).
    + destruct (len text <=? start + cs).
      * injection H as <-. exact Hall'.
      * apply (IH _ _ _ (Z.le_max_l 0 _) Hall' H).
    + injection H as <-. exact Hall.
Qed.




(** With an overlap of at least the chunk size, a text longer than one chunk
    sends the start back to 0 after every window. *)
Lemma chunk_loop_stuck (text : pystr) (cs ov : Z) :
  0 < cs -> cs <= ov -> cs < len text ->
  forall (fuel : nat) (chunks : list pystr),
    chunk_loop fuel text cs ov 0 chunks = None.
Proof.
  intros Hcs Hov Hlen.
  induction fuel as [|fuel IH]; intros chunks; [reflexivity|].
  rewrite chunk_loop_step.
  destruct (0 <? len text) eqn:E1; [|apply Z.ltb_ge in E1; lia].
  destruct (len text <=? 0 + cs) eqn:E2; [apply Z.leb_le in E2; lia|].
  replace (Z.max 0 (0 + cs - ov)) with 0 by lia.
  apply IH.
Qed.

Lemma is_empty_false {A : Type} (s : list A) : s <> [] -> is_empty s = false.
Proof. destruct s; [congruence|reflexivity]. Qed.

Lemma len_pos {A : Type} (s : list A) : s <> [] -> 0 < len s.
Proof. destruct s; [congruence|]. intros _. rewrite len_cons. pose proof (len_nonneg s). lia. Qed.



(** C5: an overlap of at least the chunk size is neither rejected nor
    clamped: on a text longer than one chunk the loop of [chunk_by_char]
    never ends, whatever the budget of iterations. *)
Theorem chunk_by_char_large_overlap_diverges :
  forall (text : pystr) (chunk_size_tokens overlap_tokens : Z),
    0 < chunk_size_tokens ->
    chunk_size_tokens <= overlap_tokens ->
    chunk_size_tokens * 4 < len text ->
    diverges (fun fuel => chunk_by_char fuel text chunk_size_tokens overlap_tokens).
Proof.
  intros text cst ovt Hcs Hov Hlen fuel.
  unfold chunk_by_char, Chunker.TOKEN_TO_CHAR.
  assert (text <> []) as Hne.
  { intros ->. change (len (@nil ascii)) with 0 in Hlen. lia. }
  rewrite (is_empty_false text Hne).
  destruct (cst * 4 <=? 0) eqn:E; [apply Z.leb_le in E; lia|].
  rewrite chunk_loop_stuck by lia. reflexivity.
Qed.

Lemma chunk_by_char_large_overlap_diverges_witness :
  diverges (fun fuel => chunk_by_char fuel (lit "abcde") 1 1).
Proof.
  apply (chunk_by_char_large_overlap_diverges (lit "abcde") 1 1); vm_compute; congruence.
Defined.

(** C6 (as the code has it): on a non-empty text a chunk size of zero or
    less raises the validation error; on the empty text [chunk_by_char]
    returns the empty list before it looks at the chunk size. *)
Theorem chunk_by_char_rejects_nonpositive_size :
  forall (fuel : nat) (text : pystr) (chunk_size_tokens overlap_tokens : Z),
    text <> [] ->
    chunk_size_tokens <= 0 ->
    chunk_by_char fuel text chunk_size_tokens overlap_tokens
    = Raise (ValueError "chunk_size_tokens must be positive")
    /\ chunk_by_char fuel [] chunk_size_tokens overlap_tokens = Ret [].
Proof.
  intros fuel text cst ovt Hne Hcs. split; [|reflexivity].
  unfold chunk_by_char, Chunker.TOKEN_TO_CHAR.
  rewrite (is_empty_false text Hne).
  destruct (cst * 4 <=? 0) eqn:E; [reflexivity|apply Z.leb_gt in E; lia].
Qed.

Lemma chunk_by_char_rejects_nonpositive_size_witness :
  chunk_by_char 10 (lit "some text") 0 200
  = Raise (ValueError "chunk_size_tokens must be positive")
  /\ chunk_by_char 10 [] 0 200 = Ret [].
Proof.
  apply (chunk_by_char_rejects_nonpositive_size 10 (lit "some text") 0 200).
  - discriminate.
  - lia.
Defined.

(** The empty text with a chunk size of zero, or a negative one: no error. *)
Lemma chunk_by_char_empty_text_returns :
  chunk_by_char 10 [] 0 200 = Ret []
  /\ chunk_by_char 10 [] (-1) 200 = Ret [].
Proof. split; reflexivity. Qed.

(** ** Budgets of iterations *)

Lemma bind_ret_inv {A B : Type} (m : outcome A) (k : A -> outcome B) (b : B) :
  bind m k = Ret b -> exists a, m = Ret a /\ k a = Ret b.
Proof.
  destruct m as [a| |]; simpl; intros H; try discriminate H.
  exists a. split; [reflexivity|exact H].
Qed.

Lemma monotone_const {A : Type} (m : outcome A) : monotone (fun _ => m).
Proof. intros fuel fuel' a H _. exact H. Qed.

Ltac mono_const := let H := fresh "H" in intros ? ? ? H _; exact H.
Ltac returns_now := exists 0%nat; intros; reflexivity.

Lemma monotone_bind {A B : Type} (m : nat -> outcome A)
    (k : nat -> A -> outcome B) :
  monotone m -> (forall a, monotone (fun fuel => k fuel a)) ->
  monotone (fun fuel => bind (m fuel) (k fuel)).
Proof.
  intros Hm Hk fuel fuel' b H Hle.
  apply bind_ret_inv in H. destruct H as (a & Ha & Hb).
  rewrite (Hm _ _ _ Ha Hle). simpl. apply (Hk a _ _ _ Hb Hle).
Qed.

Lemma monotone_returns {A : Type} (run : nat -> outcome A) (fuel : nat) (a : A) :
  monotone run -> run fuel = Ret a -> returns run a.
Proof. intros Hm H. exists fuel. intros fuel' Hle. apply (Hm _ _ _ H Hle). Qed.

Lemma returns_bind {A B : Type} (m : nat -> outcome A)
    (k : nat -> A -> outcome B) (a : A) (b : B) :
  returns m a -> returns (fun fuel => k fuel a) b ->
  returns (fun fuel => bind (m fuel) (k fuel)) b.
Proof.
  intros [f1 H1] [f2 H2]. exists (Nat.max f1 f2). intros fuel Hle.
  rewrite H1 by lia. simpl. apply H2. lia.
Qed.

Lemma returns_unique {A : Type} (run : nat -> outcome A) (a b : A) :
  returns run a -> returns run b -> a = b.
Proof.
  intros [f1 H1] [f2 H2].
  specialize (H1 (Nat.max f1 f2) (Nat.le_max_l _ _)).
  specialize (H2 (Nat.max f1 f2) (Nat.le_max_r _ _)).
  congruence.
Qed.

Lemma returns_not_diverges {A : Type} (run : nat -> outcome A) (a : A) :
  returns run a -> ~ diverges run.
Proof.
  intros [f H] Hd. specialize (H f (Nat.le_refl f)). rewrite (Hd f) in H. discriminate H.
Qed.

(** ** [chunk_by_char] *)

Lemma chunk_by_char_monotone (text : pystr) (cst ovt : Z) :
  monotone (fun fuel => chunk_by_char fuel text cst ovt).
Proof.
  intros fuel fuel' out H Hle. unfold chunk_by_char in *.
  destruct (is_empty text); [exact H|].
  destruct (cst * Chunker.TOKEN_TO_CHAR <=? 0); [exact H|].
  destruct (chunk_loop fuel text _ _ 0 []) as [chunks|] eqn:E; [|discriminate H].
  rewrite (chunk_loop_mono _ _ _ _ _ _ _ _ E Hle). exact H.
Qed.

Lemma chunk_by_char_returns (text : pystr) (cst ovt : Z) :
  0 < cst -> ovt < cst ->
  exists out, returns (fun fuel => chunk_by_char fuel text cst ovt) out.
Proof.
  intros Hcs Hov.
  destruct text as [|c text'] eqn:Etext.
  { exists []. exists 0%nat. intros; reflexivity. }
  rewrite <- Etext.
  assert (text <> []) as Hne by (rewrite Etext; discriminate).
  destruct (chunk_loop_terminates text (cst * 4) (ovt * 4) ltac:(lia) ltac:(lia)
              (S (length text)) 0 [] (Z.le_refl 0)) as [out Hout].
  { unfold len. lia. }
  exists (strip_nonempty out).
  apply (monotone_returns _ (S (length text)) _ (chunk_by_char_monotone text cst ovt)).
  unfold chunk_by_char, Chunker.TOKEN_TO_CHAR.
  rewrite (is_empty_false text Hne).
  destruct (cst * 4 <=? 0) eqn:E; [apply Z.leb_le in E; lia|].
  rewrite Hout. reflexivity.
Qed.

Lemma strip_nonempty_ok (cs : Z) (chunks : list pystr) :
  Forall (fun c => len c <= cs) chunks ->
  Forall (fun c => is_empty (strip c) = false /\ len c <= cs) (strip_nonempty chunks).
Proof.
  unfold strip_nonempty. induction 1 as [|c rest Hc Hrest IH]; simpl; [constructor|].
  destruct (is_empty (strip c)) eqn:E; simpl; [exact IH|].
  constructor; [|exact IH]. split.
  - rewrite strip_idem. exact E.
  - pose proof (strip_len c). lia.
Qed.

(** Whatever the parameters, the chunks that [chunk_by_char] returns are
    stripped, non-empty and at most [chunk_size_tokens * 4] long. *)
Lemma chunk_by_char_ok (fuel : nat) (text : pystr) (cst ovt : Z) (out : list pystr) :
  chunk_by_char fuel text cst ovt = Ret out -> chunks_ok cst out.
Proof.
  unfold chunk_by_char, Chunker.TOKEN_TO_CHAR, chunks_ok. intros H.
  destruct (is_empty text); [injection H as <-; constructor|].
  destruct (cst * 4 <=? 0) eqn:E; [discriminate H|]. apply Z.leb_gt in E.
  destruct (chunk_loop fuel text _ _ 0 []) as [chunks|] eqn:El; [|discriminate H].
  injection H as <-. apply strip_nonempty_ok.
  apply (chunk_loop_bound text (cst * 4) (ovt * 4) E fuel 0 [] chunks (Z.le_refl 0));
    [constructor|exact El].
Qed.

(** ** [chunk_file] *)

Lemma chunk_each_monotone (parts : list pystr) (cst ovt : Z) :
  monotone (fun fuel => chunk_each fuel parts cst ovt).
Proof.
  induction parts as [|part rest IH]; [mono_const|].
  simpl chunk_each.
  apply (monotone_bind (fun fuel => chunk_by_char fuel part cst ovt));
    [apply chunk_by_char_monotone|intros cs].
  apply (monotone_bind (fun fuel => chunk_each fuel rest cst ovt));
    [exact IH|intros more; mono_const].
Qed.

Lemma chunk_each_returns (parts : list pystr) (cst ovt : Z) :
  0 < cst -> ovt < cst ->
  exists out, returns (fun fuel => chunk_each fuel parts cst ovt) out.
Proof.
  intros Hcs Hov. induction parts as [|part rest [more IH]].
  - exists []. returns_now.
  - destruct (chunk_by_char_returns part cst ovt Hcs Hov) as [cs Hhead].
    exists (cs ++ more). simpl chunk_each.
    apply (returns_bind (fun fuel => chunk_by_char fuel part cst ovt) _ cs);
      [exact Hhead|].
    apply (returns_bind (fun fuel => chunk_each fuel rest cst ovt) _ more);
      [exact IH|].
    returns_now.
Qed.

Lemma chunk_each_ok (fuel : nat) (parts : list pystr) (cst ovt : Z) :
  forall out, chunk_each fuel parts cst ovt = Ret out -> chunks_ok cst out.
Proof.
  induction parts as [|part rest IH]; intros out H.
  - injection H as <-. constructor.
  - simpl in H. apply bind_ret_inv in H. destruct H as (cs & Hcs & H).
    apply bind_ret_inv in H. destruct H as (more & Hmore & H).
    injection H as <-. apply Forall_app. split.
    + apply (chunk_by_char_ok _ _ _ _ _ Hcs).
    + apply (IH _ Hmore).
Qed.

Lemma split_code_by_defs_monotone (text_ : pystr) (l : lang) :
  monotone (fun fuel => split_code_by_defs fuel text_ l).
Proof.
  unfold split_code_by_defs.
  destruct (is_empty text_); [mono_const|].
  destruct (group_blocks l (split_char nl text_) [] []) as [blocks current].
  match goal with
  | |- context [if ?b then _ else Ret _] => destruct b
  end; [apply chunk_by_char_monotone|mono_const].
Qed.

Lemma split_code_by_defs_returns (text_ : pystr) (l : lang) :
  exists out, returns (fun fuel => split_code_by_defs fuel text_ l) out.
Proof.
  unfold split_code_by_defs.
  destruct (is_empty text_); [exists []; returns_now|].
  destruct (group_blocks l (split_char nl text_) [] []) as [blocks current].
  match goal with
  | |- context [if ?b then _ else Ret ?v] => destruct b; [|exists v; returns_now]
  end.
  apply chunk_by_char_returns; lia.
Qed.

(** The chunks of a file before they are numbered: the [if]/[elif] chain of
    [chunk_file] always ends in [chunk_by_char] with the caller's sizes. *)
Lemma chunk_file_inv (fuel : nat) (content_ r p : pystr) (cst ovt : Z)
    (out : list chunk) :
  chunk_file fuel content_ r p cst ovt = Ret out ->
  exists chunks,
    chunks_ok cst chunks /\ out = emit r p (detect_file_type p) 0 chunks.
Proof.
  unfold chunk_file. intros H.
  apply bind_ret_inv in H. destruct H as (chunks & Hchunks & H).
  injection H as <-. exists chunks. split; [|reflexivity].
  destruct (detect_file_type p).
  - apply (chunk_each_ok _ _ _ _ _ Hchunks).
  - apply bind_ret_inv in Hchunks. destruct Hchunks as (blocks & _ & Hchunks).
    apply (chunk_each_ok _ _ _ _ _ Hchunks).
  - apply (chunk_by_char_ok _ _ _ _ _ Hchunks).
  - apply (chunk_by_char_ok _ _ _ _ _ Hchunks).
  - apply (chunk_by_char_ok _ _ _ _ _ Hchunks).
Qed.

Lemma chunk_file_monotone (content_ r p : pystr) (cst ovt : Z) :
  monotone (fun fuel => chunk_file fuel content_ r p cst ovt).
Proof.
  unfold chunk_file.
  apply (monotone_bind
           (fun fuel =>
              match detect_file_type p with
              | markdown => _
              | code => _
              | notebook => _
              | _ => _
              end));
    [|intros chunks; mono_const].
  destruct (detect_file_type p).
  - apply chunk_each_monotone.
  - apply (monotone_bind (fun fuel => split_code_by_defs fuel _ _));
      [apply split_code_by_defs_monotone|intros blocks; apply chunk_each_monotone].
  - apply chunk_by_char_monotone.
  - apply chunk_by_char_monotone.
  - apply chunk_by_char_monotone.
Qed.

Lemma chunk_file_returns (content_ r p : pystr) (cst ovt : Z) :
  0 < cst -> ovt < cst ->
  exists out, returns (fun fuel => chunk_file fuel content_ r p cst ovt) out.
Proof.
  intros Hcs Hov. unfold chunk_file.
  assert (exists chunks,
            returns
              (fun fuel =>
                 match detect_file_type p with
                 | markdown =>
                     chunk_each fuel
                       (filter (fun part => negb (is_empty (strip part)))
                          (re_split_headings (normalize_text content_))) cst ovt
                 | code =>
                     code_blocks <-
                       split_code_by_defs fuel (normalize_text content_)
                         (if str_eqb (lower (splitext_ext p)) (lit ".py")
                          then python else js) ;;
                     chunk_each fuel code_blocks cst ovt
                 | notebook => chunk_by_char fuel (normalize_text content_) cst ovt
                 | _ => chunk_by_char fuel (normalize_text content_) cst ovt
                 end) chunks) as [chunks Hchunks].
  { destruct (detect_file_type p).
    - apply chunk_each_returns; assumption.
    - destruct (split_code_by_defs_returns (normalize_text content_)
                  (if str_eqb (lower (splitext_ext p)) (lit ".py") then python else js))
        as [blocks Hblocks].
      destruct (chunk_each_returns blocks cst ovt Hcs Hov) as [chunks Hchunks].
      exists chunks.
      apply (returns_bind (fun fuel => split_code_by_defs fuel _ _) _ blocks);
        assumption.
    - apply chunk_by_char_returns; assumption.
    - apply chunk_by_char_returns; assumption.
    - apply chunk_by_char_returns; assumption. }
  exists (emit r p (detect_file_type p) 0 chunks).
  apply (returns_bind _ (fun _ chunks => Ret (emit r p (detect_file_type p) 0 chunks))
           chunks); [exact Hchunks|].
  returns_now.
Qed.

(** No chunk is skipped by the numbering loop when none is blank. *)
Lemma emit_all (r p : pystr) (ft : file_type) (cst : Z) (chunks : list pystr) :
  chunks_ok cst chunks ->
  forall i : Z,
    map content (emit r p ft i chunks) = chunks
    /\ map (fun c => chunk_index (chunk_metadata c)) (emit r p ft i chunks)
       = zrange i (length chunks)
    /\ Forall (fun c => repo (chunk_metadata c) = r /\ file_path (chunk_metadata c) = p)
         (emit r p ft i chunks).
Proof.
  induction 1 as [|c rest [Hc _] Hrest IH]; intros i; simpl.
  - repeat split; constructor.
  - rewrite Hc. destruct (IH (i + 1)) as (H1 & H2 & H3). simpl.
    rewrite H1, H2. repeat split. constructor; [split; reflexivity|exact H3].
Qed.

Lemma zrange_length (i : Z) (n : nat) : length (zrange i n) = n.
Proof. revert i. induction n as [|n IH]; intros i; simpl; [|rewrite IH]; reflexivity. Qed.

Lemma zrange_nth (n : nat) :
  forall (i : Z) (j : nat), (j < n)%nat -> nth j (zrange i n) (-1) = i + Z.of_nat j.
Proof.
  induction n as [|n IH]; intros i j Hj; [lia|].
  destruct j as [|j]; simpl; [lia|]. rewrite IH by lia. lia.
Qed.

Lemma zrange_nth_error (n : nat) :
  forall (i : Z) (j : nat) (x : Z),
    nth_error (zrange i n) j = Some x -> x = i + Z.of_nat j.
Proof.
  induction n as [|n IH]; intros i j x H.
  - destruct j; discriminate H.
  - destruct j as [|j]; simpl in H.
    + injection H as <-. lia.
    + apply IH in H. lia.
Qed.

Lemma chunk_file_numbering (fuel : nat) (content_ r p : pystr) (cst ovt : Z)
    (out : list chunk) :
  chunk_file fuel content_ r p cst ovt = Ret out ->
  map (fun c => chunk_index (chunk_metadata c)) out = zrange 0 (length out)
  /\ Forall (fun c => repo (chunk_metadata c) = r /\ file_path (chunk_metadata c) = p) out
  /\ chunks_ok cst (map content out).
Proof.
  intros H. apply chunk_file_inv in H. destruct H as (chunks & Hok & ->).
  destruct (emit_all r p (detect_file_type p) cst chunks Hok 0) as (H1 & H2 & H3).
  repeat split.
  - rewrite H2. f_equal. rewrite <- H1 at 1. rewrite length_map. reflexivity.
  - exact H3.
  - rewrite H1. exact Hok.
Qed.

(** C7: the chunks that [chunk_file] returns are numbered from 0 without
    gaps, in the order of emission: the chunk at position [j] has
    [chunk_index] [j], so the indices increase strictly; and with a positive
    chunk size and a smaller overlap [chunk_file] does return. *)
Theorem chunk_file_indices_gap_free :
  forall (content_ r p : pystr) (chunk_size_tokens overlap_tokens : Z),
    (forall (fuel : nat) (out : list chunk),
        chunk_file fuel content_ r p chunk_size_tokens overlap_tokens = Ret out ->
        map (fun c => chunk_index (chunk_metadata c)) out = zrange 0 (length out)
        /\ (forall (j : nat) (c : chunk),
               nth_error out j = Some c ->
               chunk_index (chunk_metadata c) = Z.of_nat j)
        /\ (forall (j1 j2 : nat) (c1 c2 : chunk),
               (j1 < j2)%nat ->
               nth_error out j1 = Some c1 -> nth_error out j2 = Some c2 ->
               chunk_index (chunk_metadata c1) < chunk_index (chunk_metadata c2)))
    /\ (0 < chunk_size_tokens -> overlap_tokens < chunk_size_tokens ->
        exists out : list chunk,
          returns
            (fun fuel => chunk_file fuel content_ r p chunk_size_tokens overlap_tokens)
            out).
Proof.
  intros content_ r p cst ovt. split; [|apply chunk_file_returns].
  intros fuel out H.
  destruct (chunk_file_numbering _ _ _ _ _ _ _ H) as (Hidx & _ & _).
  assert (forall (j : nat) (c : chunk),
             nth_error out j = Some c -> chunk_index (chunk_metadata c) = Z.of_nat j)
    as Hpos.
  { intros j c Hj.
    apply (map_nth_error (fun c => chunk_index (chunk_metadata c))) in Hj.
    rewrite Hidx in Hj. apply zrange_nth_error in Hj. lia. }
  repeat split; [exact Hidx|exact Hpos|].
  intros j1 j2 c1 c2 Hlt H1 H2.
  rewrite (Hpos _ _ H1), (Hpos _ _ H2). lia.
Qed.

Lemma chunk_file_indices_gap_free_witness :
  exists out : list chunk,
    chunk_file 50 readme_example (lit "owner/repo") (lit "README.md") 1000 200 = Ret out
    /\ map (fun c => chunk_index (chunk_metadata c)) out = [0; 1; 2]
    /\ map (fun c => chunk_index (chunk_metadata c)) out = zrange 0 (length out)
    /\ returns
         (fun fuel =>
            chunk_file fuel readme_example (lit "owner/repo") (lit "README.md") 1000 200)
         out.
Proof.
  destruct (chunk_file_indices_gap_free
              readme_example (lit "owner/repo") (lit "README.md") 1000 200)
    as [Hpartial Htotal].
  destruct (chunk_file 50 readme_example (lit "owner/repo") (lit "README.md") 1000 200)
    as [out| |] eqn:Hrun; [|vm_compute in Hrun; discriminate Hrun ..].
  exists out. split; [reflexivity|].
  destruct (Hpartial 50%nat out Hrun) as (Hidx & _).
  split; [|split; [exact Hidx|]].
  - vm_compute in Hrun. injection Hrun as <-. reflexivity.
  - destruct Htotal as [out' Hout']; [lia|lia|].
    rewrite (returns_unique _ out out'
               (monotone_returns _ 50%nat out (chunk_file_monotone _ _ _ _ _) Hrun)
               Hout').
    exact Hout'.
Defined.

(** C10: with a positive chunk size and a smaller overlap, [chunk_file]
    returns, and no chunk it returns is longer than [chunk_size_tokens * 4]
    characters, whatever the type of the file. *)
Theorem chunk_file_chunk_length :
  forall (content_ r p : pystr) (chunk_size_tokens overlap_tokens : Z),
    0 < chunk_size_tokens ->
    overlap_tokens < chunk_size_tokens ->
    exists out : list chunk,
      returns
        (fun fuel => chunk_file fuel content_ r p chunk_size_tokens overlap_tokens)
        out
      /\ Forall (fun c => len (content c) <= chunk_size_tokens * Chunker.TOKEN_TO_CHAR)
           out.
Proof.
  intros content_ r p cst ovt Hcs Hov.
  destruct (chunk_file_returns content_ r p cst ovt Hcs Hov) as [out Hout].
  exists out. split; [exact Hout|].
  destruct Hout as [fuel0 Hout]. specialize (Hout fuel0 (Nat.le_refl _)).
  destruct (chunk_file_numbering _ _ _ _ _ _ _ Hout) as (_ & _ & Hok).
  unfold chunks_ok in Hok. rewrite Forall_map in Hok.
  apply (Forall_impl _ (fun c H => proj2 H) Hok).
Qed.

Lemma chunk_file_chunk_length_witness :
  exists out : list chunk,
    returns
      (fun fuel =>
         chunk_file fuel (lit "def f(): pass") (lit "owner/repo") (lit "src/a.py") 2 1)
      out
    /\ Forall (fun c => len (content c) <= 2 * Chunker.TOKEN_TO_CHAR) out.
Proof.
  apply (chunk_file_chunk_length
           (lit "def f(): pass") (lit "owner/repo") (lit "src/a.py") 2 1); lia.
Defined.

(** ** Chunk identity *)

Lemma record_id_jsonl (idx : Z) (c : chunk) :
  record_id idx (jsonl_record c)
  = joined_id (repo (chunk_metadata c)) (file_path (chunk_metadata c))
      (chunk_index (chunk_metadata c)).
Proof. reflexivity. Qed.

Lemma prepare_ids (recs : list chunk_record) :
  forall idx : Z,
    fst (fst (prepare idx recs))
    = map (fun '(i, rec) => record_id i rec) (combine (zrange idx (length recs)) recs).
Proof.
  induction recs as [|rec rest IH]; intros idx; [reflexivity|].
  simpl. specialize (IH (idx + 1)).
  destruct (prepare (idx + 1) rest) as [[ids metadatas] docs].
  simpl in *. rewrite IH. reflexivity.
Qed.

Lemma record_ids_jsonl (out : list chunk) :
  record_ids (map jsonl_record out)
  = map (fun c => joined_id (repo (chunk_metadata c)) (file_path (chunk_metadata c))
                    (chunk_index (chunk_metadata c))) out.
Proof.
  unfold record_ids. rewrite prepare_ids. rewrite length_map.
  generalize 0 at 1. induction out as [|c rest IH]; intros idx; [reflexivity|].
  simpl. rewrite IH. reflexivity.
Qed.

Lemma joined_ids_of_numbering (r p : pystr) (out : list chunk) :
  Forall (fun c => repo (chunk_metadata c) = r /\ file_path (chunk_metadata c) = p) out ->
  map (fun c => joined_id (repo (chunk_metadata c)) (file_path (chunk_metadata c))
                  (chunk_index (chunk_metadata c))) out
  = map (joined_id r p) (map (fun c => chunk_index (chunk_metadata c)) out)
  /\ map (fun c => (file_path (chunk_metadata c), chunk_index (chunk_metadata c))) out
     = map (fun i => (p, i)) (map (fun c => chunk_index (chunk_metadata c)) out).
Proof.
  induction 1 as [|c rest [Hr Hp] _ [IH1 IH2]]; simpl; [split; reflexivity|].
  rewrite IH1, IH2, Hr, Hp. split; reflexivity.
Qed.

(** C3: the id of a record that carries [repo], [file_path] and
    [chunk_index] is [repo::file_path::chunk_index]; two runs of [chunk_file]
    on the same content, repo and path return the same chunks, hence the same
    [(file_path, chunk_index)] pairs and the same ids, which are
    [repo::file_path::0], [repo::file_path::1], ... *)
Theorem chunk_ids_deterministic :
  forall r p : pystr,
    (forall (idx : Z) (rec : chunk_record) (i : Z),
        dict_lookup (record_meta rec) "repo" = Some (VStr r) ->
        dict_lookup (record_meta rec) "file_path" = Some (VStr p) ->
        dict_lookup (record_meta rec) "chunk_index" = Some (VInt i) ->
        record_id idx rec = r ++ lit "::" ++ p ++ lit "::" ++ str_of_int i)
    /\ (forall (content_ : pystr) (chunk_size_tokens overlap_tokens : Z)
               (fuel1 fuel2 : nat) (out1 out2 : list chunk),
           chunk_file fuel1 content_ r p chunk_size_tokens overlap_tokens = Ret out1 ->
           chunk_file fuel2 content_ r p chunk_size_tokens overlap_tokens = Ret out2 ->
           out1 = out2
           /\ map (fun c => (file_path (chunk_metadata c), chunk_index (chunk_metadata c))) out1
              = map (fun c => (file_path (chunk_metadata c), chunk_index (chunk_metadata c))) out2
           /\ record_ids (map jsonl_record out1) = record_ids (map jsonl_record out2)
           /\ map (fun c => (file_path (chunk_metadata c), chunk_index (chunk_metadata c))) out1
              = map (fun i => (p, i)) (zrange 0 (length out1))
           /\ record_ids (map jsonl_record out1)
              = map (fun i => r ++ lit "::" ++ p ++ lit "::" ++ str_of_int i)
                  (zrange 0 (length out1))).
Proof.
  intros r p. split.
  - intros idx rec i Hr Hp Hi. unfold record_id, dict_get.
    rewrite Hr, Hp, Hi. reflexivity.
  - intros content_ cst ovt fuel1 fuel2 out1 out2 H1 H2.
    assert (out1 = out2) as <-.
    { apply (returns_unique (fun fuel => chunk_file fuel content_ r p cst ovt));
        eapply monotone_returns; eauto using chunk_file_monotone. }
    destruct (chunk_file_numbering _ _ _ _ _ _ _ H1) as (Hidx & Hrp & _).
    destruct (joined_ids_of_numbering r p out1 Hrp) as [Hids Hpairs].
    repeat split.
    + rewrite Hpairs, Hidx. reflexivity.
    + rewrite record_ids_jsonl, Hids, Hidx. reflexivity.
Qed.

Lemma chunk_ids_deterministic_witness :
  record_id 7 (jsonl_record
                 (mk_chunk (lit "body a")
                    (mk_metadata (lit "owner/repo") (lit "README.md") markdown 1)))
  = lit "owner/repo::README.md::1"
  /\ exists out : list chunk,
       chunk_file 50 readme_example (lit "owner/repo") (lit "README.md") 1000 200 = Ret out
       /\ chunk_file 60 readme_example (lit "owner/repo") (lit "README.md") 1000 200 = Ret out
       /\ record_ids (map jsonl_record out)
          = [lit "owner/repo::README.md::0"; lit "owner/repo::README.md::1";
             lit "owner/repo::README.md::2"].
Proof.
  destruct (chunk_ids_deterministic (lit "owner/repo") (lit "README.md"))
    as [Hid Hruns].
  split.
  - apply (Hid 7 _ 1); reflexivity.
  - destruct (chunk_file 50 readme_example (lit "owner/repo") (lit "README.md") 1000 200)
      as [out1| |] eqn:H1; [|vm_compute in H1; discriminate H1 ..].
    destruct (chunk_file 60 readme_example (lit "owner/repo") (lit "README.md") 1000 200)
      as [out2| |] eqn:H2; [|vm_compute in H2; discriminate H2 ..].
    destruct (Hruns _ _ _ _ _ _ _ H1 H2) as (Heq & _ & _ & _ & Hids).
    exists out1. split; [reflexivity|]. split; [rewrite Heq; reflexivity|].
    rewrite Hids. vm_compute in H1. injection H1 as <-. reflexivity.
Defined.

(** ** The fallback of the indexer *)

Lemma batchify_from_concat {A : Type} (batch_size : Z) (items : list A) :
  forall batch : list A,
    concat (batchify_from batch_size batch items) = batch ++ items.
Proof.
  induction items as [|item rest IH]; intros batch; simpl.
  - destruct batch; simpl; rewrite ?app_nil_r; reflexivity.
  - destruct (batch_size <=? len (batch ++ [item])); simpl; rewrite IH.
    + rewrite <- app_assoc. reflexivity.
    + rewrite <- app_assoc. reflexivity.
Qed.

Lemma prepare_zip3 (chunks : list chunk_record) :
  forall idx : Z,
    (let '(ids, metadatas, docs) := prepare idx chunks in zip3 ids docs metadatas)
    = map backup_fields (combine (zrange idx (length chunks)) chunks).
Proof.
  induction chunks as [|rec rest IH]; intros idx; [reflexivity|].
  simpl. specialize (IH (idx + 1)).
  destruct (prepare (idx + 1) rest) as [[ids metadatas] docs].
  unfold zip3 in *. simpl. rewrite IH. reflexivity.
Qed.

Lemma sbert_model_idem (model : string) : sbert_model (sbert_model model) = sbert_model model.
Proof.
  unfold sbert_model.
  destruct (String.prefix "sentence-transformers/" model
            || String.eqb model "all-MiniLM-L6-v2")%bool eqn:E.
  - rewrite E. reflexivity.
  - reflexivity.
Qed.

Lemma combine_app_same {A B : Type} (a a' : list A) (b b' : list B) :
  length a = length b ->
  combine (a ++ a') (b ++ b') = combine a b ++ combine a' b'.
Proof.
  revert b. induction a as [|x a IH]; intros [|y b] H; try discriminate H.
  - reflexivity.
  - simpl. rewrite IH by (injection H as H; exact H). reflexivity.
Qed.

Lemma combine_map_l {A B C : Type} (f : A -> B) (l : list A) (vs : list C) :
  combine (map f l) vs = map (fun '(x, v) => (f x, v)) (combine l vs).
Proof.
  revert vs. induction l as [|x l IH]; intros [|v vs]; simpl; try reflexivity.
  rewrite IH. reflexivity.
Qed.

Lemma map_snd_numbered {A B : Type} (f : A -> B) (l : list A) :
  map (fun '(_, x) => f x) (numbered l) = map f l.
Proof.
  unfold numbered. generalize 0. induction l as [|x l IH]; intros i; [reflexivity|].
  simpl. rewrite IH. reflexivity.
Qed.

Lemma zip4_batch_entries {vec : Type} (batch : list (pystr * pystr * dict)) :
  forall vs : list vec,
    zip4 vec (map (fun '(i, _, _) => i) batch) (map (fun '(_, d, _) => d) batch)
      (map (fun '(_, _, m) => m) batch) vs
    = batch_entries batch vs.
Proof.
  unfold zip4, batch_entries.
  induction batch as [|[[i d] m] rest IH]; intros [|v vs]; try reflexivity.
  simpl. rewrite IH. reflexivity.
Qed.

Lemma batch_entries_concat {vec : Type} (batches : list (list (pystr * pystr * dict)))
    (vss : list (list vec)) :
  Forall2 (fun b vs => length vs = length b) batches vss ->
  concat (map (fun '(b, vs) => batch_entries b vs) (combine batches vss))
  = batch_entries (concat batches) (concat vss).
Proof.
  induction 1 as [|b vs batches vss Hlen _ IH]; [reflexivity|].
  simpl. rewrite IH. unfold batch_entries.
  rewrite combine_app_same by (symmetry; exact Hlen).
  rewrite map_app. reflexivity.
Qed.

(** The triple that the indexer prepares for a record is the id, the
    document and the metadata that the claim speaks of. *)
Lemma batch_entries_backup_lines {vec : Type} (chunks : list chunk_record)
    (vectors : list vec) :
  batch_entries (map backup_fields (numbered chunks)) vectors
  = backup_lines chunks vectors.
Proof.
  unfold batch_entries, backup_lines. rewrite combine_map_l, map_map.
  apply map_ext. intros [[idx rec] v]. reflexivity.
Qed.

Lemma backup_fields_documents (chunks : list chunk_record) :
  map (fun '(_, d, _) => d) (map backup_fields (numbered chunks)) = documents_of chunks.
Proof.
  rewrite map_map. unfold documents_of.
  rewrite <- (map_snd_numbered
                (fun rec => match rec_content rec with Some c => c | None => [] end)).
  apply map_ext. intros [idx rec]. reflexivity.
Qed.

Lemma embedded_pointwise {vec : Type} (embed : list pystr -> outcome (list vec))
    (vector_of : pystr -> vec) (documents : list pystr) (vectors : list vec) :
  embedded_in_batches embed documents vectors ->
  (forall texts, embed texts = Ret (map vector_of texts)) ->
  vectors = map vector_of documents.
Proof.
  intros (groups & vss & <- & Hall & <-) Hpoint.
  induction Hall as [|g vs groups vss Hg _ IH]; [reflexivity|].
  simpl. rewrite map_app, <- IH. f_equal.
  rewrite Hpoint in Hg. injection Hg as <-. reflexivity.
Qed.

Section FallbackProofs.

Variable vec : Type.
Variable embed_texts_sbert : string -> list pystr -> outcome (list vec).
Variable collection_add : list (entry vec) -> list (entry vec) -> outcome (list (entry vec)).

(** The contract of the embedding model: one vector per text. *)
Hypothesis embed_aligned :
  forall (model : string) (texts : list pystr),
  exists vs, embed_texts_sbert model texts = Ret vs /\ length vs = length texts.

Lemma stored_in_app (fallback_backup : bool) (w : world vec) (a b : list (entry vec)) :
  stored_in fallback_backup (stored_in fallback_backup w a) b
  = stored_in fallback_backup w (a ++ b).
Proof.
  destruct fallback_backup; unfold stored_in; simpl; rewrite <- app_assoc; reflexivity.
Qed.

Lemma store_batches_entries (fallback_backup : bool)
    (batches : list (list (pystr * pystr * dict))) :
  (fallback_backup = false ->
   forall c es : list (entry vec), collection_add c es = Ret (c ++ es)) ->
  forall (model : string) (w : world vec) (total : Z),
  exists vss : list (list vec),
    Forall2 (fun b vs =>
               embed_texts_sbert (sbert_model model) (map (fun '(_, d, _) => d) b) = Ret vs
               /\ length vs = length b) batches vss
    /\ store_batches vec embed_texts_sbert collection_add fallback_backup model batches
         w total
       = (stored_in fallback_backup w
            (concat (map (fun '(b, vs) => batch_entries b vs) (combine batches vss))),
          Ret (total + len (concat batches))).
Proof.
  intros Hadd. induction batches as [|batch rest IH]; intros model w total.
  - exists []. split; [constructor|]. simpl. rewrite Z.add_0_r.
    destruct fallback_backup, w; simpl; rewrite app_nil_r; reflexivity.
  - simpl store_batches.
    destruct (embed_aligned (sbert_model model) (map (fun '(_, d, _) => d) batch))
      as (vs & Hvs & Hlen).
    rewrite Hvs. rewrite length_map in Hlen. rewrite zip4_batch_entries.
    assert (len (map (fun '(_, d, _) => d) batch) = len batch) as Hl.
    { unfold len. rewrite length_map. reflexivity. }
    destruct fallback_backup; simpl negb; cbv iota.
    + destruct (IH (sbert_model model)
                  (mk_world (collection w) (backup_log w ++ batch_entries batch vs))
                  (total + len (map (fun '(_, d, _) => d) batch)))
        as (vss & Hall & Hrun).
      rewrite sbert_model_idem in Hall.
      exists (vs :: vss). split; [constructor; [split; assumption|exact Hall]|].
      rewrite Hrun. simpl combine. simpl map. simpl concat.
      change (mk_world (collection w) (backup_log w ++ batch_entries batch vs))
        with (stored_in true w (batch_entries batch vs)).
      rewrite stored_in_app, len_app, Hl, Z.add_assoc. reflexivity.
    + rewrite (Hadd eq_refl).
      destruct (IH (sbert_model model)
                  (mk_world (collection w ++ batch_entries batch vs) (backup_log w))
                  (total + len (map (fun '(_, d, _) => d) batch)))
        as (vss & Hall & Hrun).
      rewrite sbert_model_idem in Hall.
      exists (vs :: vss). split; [constructor; [split; assumption|exact Hall]|].
      rewrite Hrun. simpl combine. simpl map. simpl concat.
      change (mk_world (collection w ++ batch_entries batch vs) (backup_log w))
        with (stored_in false w (batch_entries batch vs)).
      rewrite stored_in_app, len_app, Hl, Z.add_assoc. reflexivity.
Qed.

(** What the indexer stores, in either mode: the lines of the records, each
    with a vector that the model returned for the documents. *)
Lemma indexer_entries (fallback_backup : bool) (chunks : list chunk_record)
    (model : string) (batch_size : Z) (w : world vec) :
  (fallback_backup = false ->
   forall c es : list (entry vec), collection_add c es = Ret (c ++ es)) ->
  exists vectors : list vec,
    (let '(ids, metadatas, docs) := prepare 0 chunks in
     store_batches vec embed_texts_sbert collection_add fallback_backup model
       (batchify (zip3 ids docs metadatas) batch_size) w 0)
    = (stored_in fallback_backup w (backup_lines chunks vectors), Ret (len chunks))
    /\ length vectors = length chunks
    /\ embedded_in_batches (embed_texts_sbert (model_passed model))
         (documents_of chunks) vectors.
Proof.
  intros Hadd.
  pose proof (prepare_zip3 chunks 0) as Hprep.
  destruct (prepare 0 chunks) as [[ids metadatas] docs].
  fold (numbered chunks) in Hprep.
  destruct (store_batches_entries fallback_backup
              (batchify (zip3 ids docs metadatas) batch_size) Hadd model w 0)
    as (vss & Hall & Hrun).
  pose proof (batchify_from_concat batch_size (zip3 ids docs metadatas) []) as Hcat.
  fold (batchify (zip3 ids docs metadatas) batch_size) in Hcat.
  simpl app in Hcat.
  set (batches := batchify (zip3 ids docs metadatas) batch_size) in *.
  rewrite Hprep in Hcat.
  assert (Forall2 (fun b vs => length vs = length b) batches vss) as Hlens.
  { refine (Forall2_impl _ _ Hall). intros b vs [_ H]. exact H. }
  assert (length (concat vss) = length (concat batches)) as Hlen.
  { clear - Hlens. induction Hlens as [|b vs bs vss H _ IH]; [reflexivity|].
    simpl. rewrite !length_app, IH, H. reflexivity. }
  exists (concat vss). repeat split.
  - rewrite Hrun, (batch_entries_concat _ _ Hlens), Hcat, batch_entries_backup_lines.
    do 3 f_equal. unfold len, numbered.
    rewrite length_map, length_combine, zrange_length. f_equal. lia.
  - rewrite Hlen, Hcat. unfold numbered.
    rewrite length_map, length_combine, zrange_length. lia.
  - exists (map (map (fun '(_, d, _) => d)) batches), vss. repeat split.
    + rewrite <- concat_map, Hcat. apply backup_fields_documents.
    + clear - Hall. induction Hall as [|b vs bs vss [H _] _ IH]; constructor; assumption.
Qed.

(** C8: when the persistent client cannot be opened (and the in-memory one
    can), [process_and_store] appends to the backup log exactly one line per
    input record, in the order of the records, after the lines already there:
    the line of a record holds its id, its document, its metadata and its
    embedding, the vectors being those the model returned for the documents
    (for a model that embeds every text on its own, the vector of the
    record's own document); the collection is left as it was and the count
    returned is the number of input records. *)
Theorem process_and_store_fallback :
  forall (env : store_env) (chunks : list chunk_record) (collection_name model : string)
         (batch_size : Z) (w : world vec),
    chromadb_installed env = true ->
    persistent_client_ok env = false ->
    memory_client_ok env = true ->
    exists vectors : list vec,
      process_and_store vec embed_texts_sbert collection_add env chunks
        collection_name model batch_size w
      = (mk_world (collection w) (backup_log w ++ backup_lines chunks vectors),
         Ret (len chunks, collection_name))
      /\ length vectors = length chunks
      /\ length (backup_lines chunks vectors) = length chunks
      /\ embedded_in_batches (embed_texts_sbert (model_passed model))
           (documents_of chunks) vectors
      /\ (forall vector_of : pystr -> vec,
             (forall texts, embed_texts_sbert (model_passed model) texts
                            = Ret (map vector_of texts)) ->
             vectors = map vector_of (documents_of chunks)).
Proof.
  intros env chunks name model batch_size w Hinst Hpers Hmem.
  unfold process_and_store. rewrite Hinst, Hpers, Hmem. simpl negb. simpl andb. cbv iota.
  destruct (indexer_entries true chunks model batch_size w) as (vectors & Hrun & Hlen & Hemb);
    [discriminate|].
  exists vectors.
  destruct (prepare 0 chunks) as [[ids metadatas] docs].
  rewrite Hrun. repeat split; try assumption.
  - unfold backup_lines, numbered.
    rewrite length_map, !length_combine, zrange_length. lia.
  - intros vector_of Hpoint. apply (embedded_pointwise _ _ _ _ Hemb Hpoint).
Qed.

End FallbackProofs.

Lemma process_and_store_fallback_witness :
  exists vectors : list Z,
    process_and_store Z length_embed append_entries fallback_env three_records
      "repo_embeddings" "sentence-transformers/all-MiniLM-L6-v2" 2 (mk_world [] [])
    = (mk_world [] ([] ++ backup_lines three_records vectors),
       Ret (len three_records, "repo_embeddings"%string))
    /\ backup_lines three_records vectors
       = [mk_entry (lit "o/r::a.md::0") (lit "alpha") (record_meta_of three_records 0) 5;
          mk_entry (lit "o/r::a.md::1") (lit "beta") (record_meta_of three_records 1) 4;
          mk_entry (lit "o/r::b.md::0") (lit "alpha") (record_meta_of three_records 2) 5].
Proof.
  destruct (process_and_store_fallback Z length_embed append_entries
              (fun model texts =>
                 ex_intro _ (map (fun t => len t) texts)
                   (conj eq_refl (length_map _ texts)))
              fallback_env three_records "repo_embeddings"
              "sentence-transformers/all-MiniLM-L6-v2" 2 (mk_world [] [])
              eq_refl eq_refl eq_refl)
    as (vectors & Hrun & _ & _ & _ & Hpoint).
  exists vectors. split; [exact Hrun|].
  rewrite (Hpoint (fun t => len t) (fun texts => eq_refl)). reflexivity.
Defined.

(** ** The retry loop of the generation client *)

Lemma retry_loop_step (fuel : nat) (server : Z -> post_result)
    (attempts backoff : Z) (slept : list Z) :
  retry_loop (S fuel) server attempts backoff slept
  = match attempt (server (attempts + 1)) with
    | inr text_ => mk_run (Ret text_) (attempts + 1) slept
    | inl e =>
        if 3 <=? attempts + 1
        then mk_run (Raise (RuntimeError "OpenAI-compatible request failed"))
               (attempts + 1) slept
        else retry_loop fuel server (attempts + 1) (backoff * 2) (slept ++ [backoff])
    end.
Proof. reflexivity. Qed.

(** The loop sends at most three requests, whatever the backend does. *)
Lemma retry_loop_at_most_three (server : Z -> post_result) :
  forall (fuel : nat) (attempts backoff : Z) (slept : list Z),
    0 <= attempts ->
    (Z.to_nat (3 - attempts) <= fuel)%nat ->
    attempts < 3 ->
    let r := retry_loop fuel server attempts backoff slept in
    run_result r <> OutOfFuel /\ run_posts r <= 3.
Proof.
  induction fuel as [|fuel IH]; intros attempts backoff slept H0 Hfuel H3; [lia|].
  cbv zeta. rewrite retry_loop_step.
  destruct (attempt (server (attempts + 1))) as [e|text_].
  - destruct (3 <=? attempts + 1) eqn:E.
    + simpl. split; [discriminate|lia].
    + apply Z.leb_gt in E. apply IH; lia.
  - simpl. split; [discriminate|lia].
Qed.

(** C9: the loop does not look at the kind of a failure: when the first
    three requests fail, for whatever reason, three requests are sent, with
    sleeps of 1 and 2 seconds between them, before the error reaches the
    caller. *)
Theorem retry_ignores_failure_kind :
  forall (server : Z -> post_result) (fuel : nat),
    (forall n : Z, 1 <= n <= 3 -> exists e, attempt (server n) = inl e) ->
    (3 <= fuel)%nat ->
    generate_with_openai_compatible fuel server
    = mk_run (Raise (RuntimeError "OpenAI-compatible request failed")) 3 [1; 2].
Proof.
  intros server fuel Hfail Hfuel.
  destruct fuel as [|[|[|fuel]]]; try lia.
  unfold generate_with_openai_compatible.
  destruct (Hfail 1 ltac:(lia)) as [e1 H1].
  destruct (Hfail 2 ltac:(lia)) as [e2 H2].
  destruct (Hfail 3 ltac:(lia)) as [e3 H3].
  rewrite retry_loop_step. simpl Z.add. rewrite H1. simpl Z.leb. cbv iota.
  rewrite retry_loop_step. simpl Z.add. rewrite H2. simpl Z.leb. cbv iota.
  rewrite retry_loop_step. simpl Z.add. rewrite H3. reflexivity.
Qed.

Lemma retry_ignores_failure_kind_witness :
  attempt (always_404 1) = inl (HTTPError 404)
  /\ generate_with_openai_compatible 3 always_404
     = mk_run (Raise (RuntimeError "OpenAI-compatible request failed")) 3 [1; 2].
Proof.
  split; [reflexivity|].
  apply (retry_ignores_failure_kind always_404 3); [|lia].
  intros n _. exists (HTTPError 404). reflexivity.
Defined.

(** ** The scenarios of the specification *)

Example two_defs_two_chunks :
  exists c0 c1 : chunk,
    chunk_file 50 two_defs (lit "owner/repo") (lit "pkg/mod.py") 1000 200 = Ret [c0; c1]
    /\ chunk_index (chunk_metadata c0) = 0 /\ chunk_index (chunk_metadata c1) = 1
    /\ content c0 = lit "def f():
    pass"
    /\ content c1 = lit "def g():
    pass".
Proof. do 2 eexists. split; [vm_compute; reflexivity|]. repeat split. Qed.

Example readme_three_chunks :
  exists out : list chunk,
    chunk_file 50 readme_example (lit "owner/repo") (lit "README.md") 1000 200 = Ret out
    /\ map content out = [lit "intro"; lit "A
body a"; lit "B
body b"].
Proof. eexists. split; [vm_compute; reflexivity|reflexivity]. Qed.

Example three_long_results_two_blocks :
  len (render_block 1 long_result) = 500
  /\ build_context [long_result; long_result; long_result] 1200
     = join SEPARATOR [render_block 1 long_result; render_block 2 long_result]
  /\ len (build_context [long_result; long_result; long_result] 1200) = 1007.
Proof. repeat split; vm_compute; reflexivity. Qed.

Example detect_file_type_examples :
  map (fun p => detect_file_type (lit p))
    ["README.MD"; "src/a.py"; "conf/x.yaml"; "nb.ipynb"; ".bashrc"; "Makefile"]%string
  = [markdown; code; config; notebook; text; text].
Proof. reflexivity. Qed.

Example normalize_text_example :
  normalize_text (lit "  a  
b



c
  ") = lit "a
b


c".
Proof. vm_compute. reflexivity. Qed.

(** * Further properties of the modelled code *)

(** ** The retry loop: shape of every run *)

(** X1: whatever the backend does, the retry loop ends after one to three
    requests, and between the requests it sleeps 1 second, then 2: never
    after the last request. *)
Theorem retry_run_shape :
  forall (server : Z -> post_result) (fuel : nat),
    (3 <= fuel)%nat ->
    run_result (generate_with_openai_compatible fuel server) <> OutOfFuel
    /\ 1 <= run_posts (generate_with_openai_compatible fuel server) <= 3
    /\ run_sleeps (generate_with_openai_compatible fuel server)
       = firstn (Z.to_nat (run_posts (generate_with_openai_compatible fuel server) - 1))
           [1; 2].
Proof.
  intros server fuel Hfuel.
  destruct fuel as [|[|[|fuel]]]; try lia.
  unfold generate_with_openai_compatible.
  rewrite retry_loop_step. simpl Z.add.
  destruct (attempt (server 1)) as [e1|t1]; [|simpl; repeat split; try lia; discriminate].
  simpl Z.leb. cbv iota.
  rewrite retry_loop_step. simpl Z.add.
  destruct (attempt (server 2)) as [e2|t2]; [|simpl; repeat split; try lia; discriminate].
  simpl Z.leb. cbv iota.
  rewrite retry_loop_step. simpl Z.add.
  destruct (attempt (server 3)) as [e3|t3]; simpl; repeat split; try lia; discriminate.
Qed.

Lemma retry_run_shape_witness :
  run_result (generate_with_openai_compatible 3 always_404) <> OutOfFuel
  /\ 1 <= run_posts (generate_with_openai_compatible 3 always_404) <= 3
  /\ run_sleeps (generate_with_openai_compatible 3 always_404)
     = firstn (Z.to_nat (run_posts (generate_with_openai_compatible 3 always_404) - 1))
         [1; 2].
Proof. apply (retry_run_shape always_404 3). lia. Defined.

(** X2: the response of the first request that does not fail, among the
    first three, is what the loop returns; [n - 1] requests failed before it
    and the loop slept between them. *)
Theorem retry_first_success :
  forall (server : Z -> post_result) (fuel : nat) (n : Z) (body : pystr),
    (3 <= fuel)%nat ->
    1 <= n <= 3 ->
    (forall m : Z, 1 <= m < n -> exists e, attempt (server m) = inl e) ->
    attempt (server n) = inr body ->
    generate_with_openai_compatible fuel server
    = mk_run (Ret body) n (firstn (Z.to_nat (n - 1)) [1; 2]).
Proof.
  intros server fuel n body Hfuel Hn Hfail Hok.
  destruct fuel as [|[|[|fuel]]]; try lia.
  unfold generate_with_openai_compatible.
  assert (n = 1 \/ n = 2 \/ n = 3) as [->|[->| ->]] by lia.
  - rewrite retry_loop_step. simpl Z.add. rewrite Hok. reflexivity.
  - destruct (Hfail 1 ltac:(lia)) as [e1 H1].
    rewrite retry_loop_step. simpl Z.add. rewrite H1. simpl Z.leb. cbv iota.
    rewrite retry_loop_step. simpl Z.add. rewrite Hok. reflexivity.
  - destruct (Hfail 1 ltac:(lia)) as [e1 H1].
    destruct (Hfail 2 ltac:(lia)) as [e2 H2].
    rewrite retry_loop_step. simpl Z.add. rewrite H1. simpl Z.leb. cbv iota.
    rewrite retry_loop_step. simpl Z.add. rewrite H2. simpl Z.leb. cbv iota.
    rewrite retry_loop_step. simpl Z.add. rewrite Hok. reflexivity.
Qed.

Lemma retry_first_success_witness :
  generate_with_openai_compatible 3 flaky_server
  = mk_run (Ret (lit "ok")) 3 (firstn (Z.to_nat (3 - 1)) [1; 2]).
Proof.
  apply (retry_first_success flaky_server 3 3 (lit "ok")); try lia.
  - intros m Hm. assert (m = 1 \/ m = 2) as [->| ->] by lia.
    + exists (RuntimeError "HTTP"). reflexivity.
    + exists (HTTPError 404). reflexivity.
  - reflexivity.
Defined.

(** X3: a response leaves the loop exactly when its status is below 400 or
    at least 600; every status from 400 to 599 is a failure, listed as
    transient or not, and so is every exception of the request. *)
Theorem attempt_accepts :
  forall (status_code : Z) (body : pystr),
    ((status_code < 400 \/ 600 <= status_code) ->
     attempt (Response status_code body) = inr body)
    /\ (400 <= status_code < 600 ->
        exists e, attempt (Response status_code body) = inl e)
    /\ (forall e, attempt (PostRaises e) = inl e).
Proof.
  intros st body. unfold attempt. repeat split.
  - intros H.
    assert (existsb (Z.eqb st) [429; 500; 502; 503; 504] = false) as ->.
    { simpl. repeat (rewrite (proj2 (Z.eqb_neq _ _)) by lia). reflexivity. }
    destruct ((400 <=? st) && (st <? 600)) eqn:E; [|reflexivity].
    apply andb_true_iff in E. destruct E as [E1 E2].
    apply Z.leb_le in E1. apply Z.ltb_lt in E2. lia.
  - intros H.
    destruct (existsb (Z.eqb st) [429; 500; 502; 503; 504]); [eexists; reflexivity|].
    assert ((400 <=? st) && (st <? 600) = true) as ->.
    { apply andb_true_iff. split; [apply Z.leb_le|apply Z.ltb_lt]; lia. }
    eexists; reflexivity.
Qed.

Lemma attempt_accepts_witness :
  attempt (Response 200 (lit "ok")) = inr (lit "ok")
  /\ (exists e, attempt (Response 404 (lit "Not Found")) = inl e).
Proof.
  destruct (attempt_accepts 200 (lit "ok")) as (Hok & _ & _).
  destruct (attempt_accepts 404 (lit "Not Found")) as (_ & Hfail & _).
  split; [apply Hok; lia|apply Hfail; lia].
Defined.

(** ** The context budget *)

(** X4: the budget does not shrink when the context window grows or the
    prompt overhead shrinks; it is exactly 1024 as long as at most 256 tokens
    are left for the context, and 4 characters per token left above that. *)
Theorem allowed_context_chars_shape :
  forall n1 n2 a o1 o2 : Z,
    n1 <= n2 -> o2 <= o1 ->
    allowed_context_chars n1 a o1 <= allowed_context_chars n2 a o2
    /\ (n1 - a - o1 <= 256 -> allowed_context_chars n1 a o1 = 1024)
    /\ (256 <= n1 - a - o1 -> allowed_context_chars n1 a o1 = 4 * (n1 - a - o1)).
Proof.
  intros n1 n2 a o1 o2 Hn Ho.
  unfold allowed_context_chars, Prompt.TOKEN_TO_CHAR. repeat split; lia.
Qed.

Lemma allowed_context_chars_shape_witness :
  allowed_context_chars 512 400 default_overhead
    <= allowed_context_chars 4096 400 default_overhead
  /\ allowed_context_chars 512 400 default_overhead = 1024
  /\ allowed_context_chars 4096 400 default_overhead = 4 * (4096 - 400 - 400).
Proof.
  destruct (allowed_context_chars_shape 512 4096 400 default_overhead default_overhead)
    as (H1 & H2 & _); [unfold default_overhead; lia ..|].
  destruct (allowed_context_chars_shape 4096 4096 400 default_overhead default_overhead)
    as (_ & _ & H3); [unfold default_overhead; lia ..|].
  split; [exact H1|]. split; [apply H2|apply H3]; unfold default_overhead; lia.
Defined.

(** ** The list of sources *)

Lemma str_eqb_eq (a b : pystr) : str_eqb a b = true <-> a = b.
Proof.
  unfold str_eqb. destruct (list_eq_dec ascii_dec a b); split; congruence.
Qed.

Lemma pyval_eqb_eq (a b : pyval) : pyval_eqb a b = true <-> a = b.
Proof.
  destruct a as [|x|x], b as [|y|y]; simpl; split; try congruence; try reflexivity.
  - intros H. apply Z.eqb_eq in H. congruence.
  - intros [= ->]. apply Z.eqb_refl.
  - intros H. apply str_eqb_eq in H. congruence.
  - intros [= ->]. apply str_eqb_eq. reflexivity.
Qed.

Lemma existsb_pyval_In (l : pyval) (seen : list pyval) :
  existsb (pyval_eqb l) seen = true <-> In l seen.
Proof.
  rewrite existsb_exists. split.
  - intros (x & Hin & Heq). apply pyval_eqb_eq in Heq. subst. exact Hin.
  - intros Hin. exists l. split; [exact Hin|apply pyval_eqb_eq; reflexivity].
Qed.

Lemma format_sources_from_spec (results : list result) :
  forall seen : list pyval,
    NoDup (format_sources_from seen results)
    /\ (forall l,
           In l (format_sources_from seen results)
           <-> truthy l = true /\ In l (map source_label results) /\ ~ In l seen).
Proof.
  induction results as [|r rest IH]; intros seen.
  - simpl. split; [constructor|]. intros l. tauto.
  - simpl format_sources_from. simpl map.
    destruct (truthy (source_label r)) eqn:Et.
    + destruct (existsb (pyval_eqb (source_label r)) seen) eqn:Es; simpl andb; cbv iota.
      * apply existsb_pyval_In in Es.
        destruct (IH seen) as [Hnd Hin]. split; [exact Hnd|].
        intros l. rewrite Hin. simpl In. split.
        -- intros (H1 & H2 & H3). tauto.
        -- intros (H1 & [H2|H2] & H3); [subst; contradiction|tauto].
      * assert (~ In (source_label r) seen) as Hns.
        { intros Hin. apply existsb_pyval_In in Hin. congruence. }
        destruct (IH (source_label r :: seen)) as [Hnd Hin]. split.
        -- constructor; [|exact Hnd]. rewrite Hin. simpl In. tauto.
        -- intros l. simpl In. rewrite Hin. simpl In. split.
           ++ intros [<-|(H1 & H2 & H3)]; [tauto|tauto].
           ++ intros (H1 & [H2|H2] & H3); [left; exact H2|].
              destruct (pyval_eqb (source_label r) l) eqn:E.
              ** left. apply pyval_eqb_eq. exact E.
              ** right. repeat split; try assumption.
                 intros [Heq|Hs]; [|contradiction].
                 apply pyval_eqb_eq in Heq. congruence.
    + simpl andb. cbv iota. destruct (IH seen) as [Hnd Hin]. split; [exact Hnd|].
      intros l. rewrite Hin. simpl In. split.
      * tauto.
      * intros (H1 & [H2|H2] & H3); [subst; congruence|tauto].
Qed.

(** X5: [format_sources] returns every non-empty label of the results and
    nothing else, each label once. *)
Theorem format_sources_dedup :
  forall results : list result,
    NoDup (format_sources results)
    /\ (forall l : pyval,
           In l (format_sources results)
           <-> truthy l = true /\ In l (map source_label results)).
Proof.
  intros results. unfold format_sources.
  destruct (format_sources_from_spec results []) as [Hnd Hin].
  split; [exact Hnd|]. intros l. rewrite Hin. simpl In. tauto.
Qed.

(** The labels come out in the order of their first result. *)
Lemma format_sources_from_app (a b : list result) :
  forall seen : list pyval,
    format_sources_from seen (a ++ b)
    = format_sources_from seen a
        ++ format_sources_from (rev (format_sources_from seen a) ++ seen) b.
Proof.
  induction a as [|r rest IH]; intros seen; [reflexivity|].
  simpl app. simpl format_sources_from.
  destruct (truthy (source_label r) && negb (existsb (pyval_eqb (source_label r)) seen)).
  - rewrite IH. simpl rev. rewrite <- app_assoc. reflexivity.
  - apply IH.
Qed.

(** X6: the sources of a longer list of results begin with the sources of
    the shorter one: more results only append labels. *)
Theorem format_sources_prefix :
  forall a b : list result,
    exists more : list pyval, format_sources (a ++ b) = format_sources a ++ more.
Proof.
  intros a b. unfold format_sources. rewrite format_sources_from_app.
  eexists. reflexivity.
Qed.

(** ** Batches *)

Lemma batchify_from_nonempty {A : Type} (batch_size : Z) (items : list A) :
  forall batch : list A,
    Forall (fun b => b <> []) (batchify_from batch_size batch items).
Proof.
  induction items as [|item rest IH]; intros batch; simpl.
  - destruct batch; simpl; constructor; [discriminate|constructor].
  - destruct (batch_size <=? len (batch ++ [item])); [|apply IH].
    constructor; [|apply IH]. destruct batch; discriminate.
Qed.

(** X7: [batchify] cuts the items into consecutive non-empty batches: put
    end to end, the batches are the items, for every batch size. *)
Theorem batchify_partition :
  forall (A : Type) (items : list A) (batch_size : Z),
    concat (batchify items batch_size) = items
    /\ Forall (fun b => b <> []) (batchify items batch_size).
Proof.
  intros A items batch_size. unfold batchify. split.
  - apply batchify_from_concat.
  - apply batchify_from_nonempty.
Qed.

Lemma batchify_from_sizes {A : Type} (batch_size : Z) (items : list A) :
  1 <= batch_size ->
  forall batch : list A,
    len batch < batch_size ->
    Forall (fun b => len b = batch_size)
      (removelast (batchify_from batch_size batch items))
    /\ Forall (fun b => 0 < len b <= batch_size) (batchify_from batch_size batch items).
Proof.
  intros Hbs. induction items as [|item rest IH]; intros batch Hlen.
  - simpl. destruct batch as [|x batch]; simpl; split; constructor.
    + rewrite len_cons in *. pose proof (len_nonneg batch). lia.
    + constructor.
  - simpl batchify_from.
    assert (len (batch ++ [item]) = len batch + 1) as Hlen'.
    { rewrite len_app. reflexivity. }
    pose proof (len_nonneg batch) as Hnn.
    destruct (batch_size <=? len (batch ++ [item])) eqn:E.
    + apply Z.leb_le in E.
      destruct (IH []) as [IH1 IH2]; [change (len (@nil A)) with 0; lia|].
      split.
      * destruct (batchify_from batch_size [] rest) as [|b bs] eqn:Er.
        -- constructor.
        -- change (removelast ((batch ++ [item]) :: b :: bs))
             with ((batch ++ [item]) :: removelast (b :: bs)).
           constructor; [lia|exact IH1].
      * constructor; [lia|exact IH2].
    + apply Z.leb_gt in E. apply IH. lia.
Qed.

(** X8: with a batch size of at least 1 no batch is larger than the batch
    size, and every batch but the last one is full. *)
Theorem batchify_sizes :
  forall (A : Type) (items : list A) (batch_size : Z),
    1 <= batch_size ->
    Forall (fun b => 0 < len b <= batch_size) (batchify items batch_size)
    /\ Forall (fun b => len b = batch_size) (removelast (batchify items batch_size)).
Proof.
  intros A items batch_size Hbs. unfold batchify.
  destruct (batchify_from_sizes batch_size items Hbs []) as [H1 H2].
  - change (len (@nil A)) with 0. lia.
  - split; assumption.
Qed.

Lemma batchify_sizes_witness :
  Forall (fun b => 0 < len b <= 2) (batchify three_records 2)
  /\ Forall (fun b => len b = 2) (removelast (batchify three_records 2)).
Proof. apply (batchify_sizes chunk_record three_records 2). lia. Defined.

(** X9: a batch size of 1, of 0 or below 0 gives one batch per item: the
    generator never loops on an empty batch and never drops an item. *)
Theorem batchify_degenerate :
  forall (A : Type) (items : list A) (batch_size : Z),
    batch_size <= 1 ->
    batchify items batch_size = map (fun item => [item]) items.
Proof.
  intros A items batch_size Hbs. unfold batchify.
  induction items as [|item rest IH]; [reflexivity|].
  simpl batchify_from. change (len [item]) with 1.
  destruct (batch_size <=? 1) eqn:E; [|apply Z.leb_gt in E; lia].
  simpl map. rewrite IH. reflexivity.
Qed.

Lemma batchify_degenerate_witness :
  batchify three_records 0 = map (fun item => [item]) three_records.
Proof. apply (batchify_degenerate chunk_record three_records 0). lia. Defined.

(** ** The two stores of the indexer *)

Section StoreProofs.

Variable vec : Type.
Variable embed_texts_sbert : string -> list pystr -> outcome (list vec).
Variable collection_add : list (entry vec) -> list (entry vec) -> outcome (list (entry vec)).

Lemma store_batches_keeps_other_store (fallback_backup : bool)
    (batches : list (list (pystr * pystr * dict))) :
  forall (model : string) (w : world vec) (total : Z),
    let w' := fst (store_batches vec embed_texts_sbert collection_add fallback_backup
                     model batches w total) in
    if fallback_backup then collection w' = collection w
    else backup_log w' = backup_log w.
Proof.
  induction batches as [|batch rest IH]; intros model w total; cbv zeta.
  - simpl. destruct fallback_backup; reflexivity.
  - simpl store_batches.
    destruct (embed_texts_sbert (sbert_model model) _) as [embs|e|];
      [|destruct fallback_backup; reflexivity ..].
    destruct fallback_backup; simpl negb; cbv iota.
    + match goal with
      | |- context [store_batches _ _ _ true ?m rest ?w1 ?t] =>
          specialize (IH m w1 t)
      end.
      cbv zeta in IH. rewrite IH. reflexivity.
    + destruct (collection_add (collection w) _) as [c|e|]; try reflexivity.
      match goal with
      | |- context [store_batches _ _ _ false ?m rest ?w1 ?t] =>
          specialize (IH m w1 t)
      end.
      cbv zeta in IH. rewrite IH. reflexivity.
Qed.

(** X10: whatever the embedding model and the store do (errors included), a
    run that opened the persistent client leaves the backup log as it was,
    and a run in fallback mode leaves the collection as it was: the fallback
    writes the log only, nothing is added to the in-memory collection. *)
Theorem process_and_store_one_store :
  forall (env : store_env) (chunks : list chunk_record) (collection_name model : string)
         (batch_size : Z) (w : world vec),
    let w' := fst (process_and_store vec embed_texts_sbert collection_add env chunks
                     collection_name model batch_size w) in
    (persistent_client_ok env = true -> backup_log w' = backup_log w)
    /\ (persistent_client_ok env = false -> collection w' = collection w).
Proof.
  intros env chunks name model batch_size w. cbv zeta. unfold process_and_store.
  destruct (chromadb_installed env); simpl negb; cbv iota; [|split; reflexivity].
  destruct (persistent_client_ok env) eqn:Ep; simpl negb; simpl andb; cbv iota.
  - split; [intros _|discriminate].
    destruct (prepare 0 chunks) as [[ids metadatas] docs].
    pose proof (store_batches_keeps_other_store false
                  (batchify (zip3 ids docs metadatas) batch_size) model w 0) as H.
    cbv zeta in H.
    destruct (store_batches vec embed_texts_sbert collection_add false model _ w 0)
      as [w' r]. exact H.
  - split; [discriminate|intros _].
    destruct (memory_client_ok env); simpl negb; cbv iota; [|reflexivity].
    destruct (prepare 0 chunks) as [[ids metadatas] docs].
    pose proof (store_batches_keeps_other_store true
                  (batchify (zip3 ids docs metadatas) batch_size) model w 0) as H.
    cbv zeta in H.
    destruct (store_batches vec embed_texts_sbert collection_add true model _ w 0)
      as [w' r]. exact H.
Qed.

(** The contract of the embedding model (one vector per text) and a store
    whose [add] appends. *)
Hypothesis embed_aligned :
  forall (model : string) (texts : list pystr),
  exists vs, embed_texts_sbert model texts = Ret vs /\ length vs = length texts.

Hypothesis add_appends :
  forall c es : list (entry vec), collection_add c es = Ret (c ++ es).

(** X11: when the persistent client opens, the model returns one vector per
    text and the store appends, [process_and_store] adds to the collection
    exactly one entry per input record, in the order of the records: the
    entry of a record holds its id, its document (the record's content), its
    metadata and a vector that the model returned for the documents; the
    backup log is left as it was and the count returned is the number of
    records, for every batch size. *)
Theorem process_and_store_persistent :
  forall (env : store_env) (chunks : list chunk_record) (collection_name model : string)
         (batch_size : Z) (w : world vec),
    chromadb_installed env = true ->
    persistent_client_ok env = true ->
    exists vectors : list vec,
      process_and_store vec embed_texts_sbert collection_add env chunks
        collection_name model batch_size w
      = (mk_world (collection w ++ backup_lines chunks vectors) (backup_log w),
         Ret (len chunks, collection_name))
      /\ length vectors = length chunks
      /\ length (backup_lines chunks vectors) = length chunks
      /\ embedded_in_batches (embed_texts_sbert (model_passed model))
           (documents_of chunks) vectors.
Proof.
  intros env chunks name model batch_size w Hinst Hpers.
  unfold process_and_store. rewrite Hinst, Hpers. simpl negb. simpl andb. cbv iota.
  destruct (indexer_entries vec embed_texts_sbert collection_add embed_aligned
              false chunks model batch_size w (fun _ => add_appends))
    as (vectors & Hrun & Hlen & Hemb).
  exists vectors.
  destruct (prepare 0 chunks) as [[ids metadatas] docs].
  rewrite Hrun. repeat split; try assumption.
  unfold backup_lines, numbered.
  rewrite length_map, !length_combine, zrange_length. lia.
Qed.

End StoreProofs.

Lemma process_and_store_one_store_witness :
  backup_log
    (fst (process_and_store unit unit_embed append_add (mk_store_env true true true)
            three_records "repo_embeddings" "all-MiniLM-L6-v2" 2 (mk_world [] [])))
  = []
  /\ collection
       (fst (process_and_store unit unit_embed append_add fallback_env
               three_records "repo_embeddings" "all-MiniLM-L6-v2" 2 (mk_world [] [])))
     = [].
Proof.
  split.
  - apply (process_and_store_one_store unit unit_embed append_add
             (mk_store_env true true true) three_records). reflexivity.
  - apply (process_and_store_one_store unit unit_embed append_add
             fallback_env three_records). reflexivity.
Defined.

Lemma process_and_store_persistent_witness :
  exists vectors : list Z,
    process_and_store Z length_embed append_entries (mk_store_env true true true)
      three_records "repo_embeddings" "all-MiniLM-L6-v2" 2 (mk_world [] [])
    = (mk_world ([] ++ backup_lines three_records vectors) [],
       Ret (len three_records, "repo_embeddings"%string))
    /\ backup_lines three_records vectors
       = [mk_entry (lit "o/r::a.md::0") (lit "alpha") (record_meta_of three_records 0) 5;
          mk_entry (lit "o/r::a.md::1") (lit "beta") (record_meta_of three_records 1) 4;
          mk_entry (lit "o/r::b.md::0") (lit "alpha") (record_meta_of three_records 2) 5].
Proof.
  destruct (process_and_store_persistent Z length_embed append_entries
              (fun model texts =>
                 ex_intro _ (map (fun t => len t) texts)
                   (conj eq_refl (length_map _ texts)))
              (fun c es => eq_refl)
              (mk_store_env true true true) three_records "repo_embeddings"
              "all-MiniLM-L6-v2" 2 (mk_world [] []) eq_refl eq_refl)
    as (vectors & Hrun & _ & _ & Hemb).
  exists vectors. split; [exact Hrun|].
  rewrite (embedded_pointwise _ (fun t => len t) _ _ Hemb (fun texts => eq_refl)).
  reflexivity.
Defined.

(** ** More on the context assembler *)

Lemma budget_nonneg (blocks : list pystr) : 0 <= budget blocks.
Proof.
  induction blocks as [|b rest IH]; simpl; [lia|].
  pose proof (len_nonneg b). lia.
Qed.

Lemma budget_firstn_mono (blocks : list pystr) :
  forall k k' : nat,
    (k <= k')%nat -> budget (firstn k blocks) <= budget (firstn k' blocks).
Proof.
  induction blocks as [|b rest IH]; intros k k' Hle.
  - rewrite !firstn_nil. lia.
  - destruct k as [|k]; [simpl firstn at 1; apply budget_nonneg|].
    destruct k' as [|k']; [lia|].
    simpl. specialize (IH k k' ltac:(lia)). lia.
Qed.

Lemma accumulate_step (max_chars i total : Z) (parts : list pystr) (r : result)
    (rest : list result) :
  accumulate max_chars i total parts (r :: rest)
  = if max_chars <? total + len (render_block i r) + 2 then parts
    else accumulate max_chars (i + 1) (total + len (render_block i r) + 2)
           (parts ++ [render_block i r]) rest.
Proof. reflexivity. Qed.

(** X12: a larger budget never drops a block: the blocks kept under
    [max_chars] are a prefix of those kept under any larger budget. *)
Theorem build_context_monotone :
  forall (results : list result) (m1 m2 : Z),
    m1 <= m2 ->
    exists k1 k2 : nat,
      (k1 <= k2 <= length results)%nat
      /\ build_context results m1 = join SEPARATOR (firstn k1 (blocks_from 1 results))
      /\ build_context results m2 = join SEPARATOR (firstn k2 (blocks_from 1 results)).
Proof.
  intros results m1 m2 Hle.
  destruct (accumulate_prefix results m1 1 0 []) as (k1 & Hk1 & Heq1 & Hfit1 & Hnext1).
  destruct (accumulate_prefix results m2 1 0 []) as (k2 & Hk2 & Heq2 & Hfit2 & Hnext2).
  exists k1, k2. unfold build_context. rewrite Heq1, Heq2. simpl app.
  repeat split; try assumption.
  destruct (Nat.le_gt_cases k1 k2) as [H|H]; [exact H|exfalso].
  assert (0 < k1)%nat as Hpos by lia. specialize (Hfit1 Hpos).
  assert (k2 < length results)%nat as Hlt by lia. specialize (Hnext2 Hlt).
  pose proof (budget_firstn_mono (blocks_from 1 results) (S k2) k1 ltac:(lia)). lia.
Qed.

Lemma build_context_monotone_witness :
  exists k1 k2 : nat,
    (k1 <= k2 <= length [long_result; long_result; long_result])%nat
    /\ build_context [long_result; long_result; long_result] 600
       = join SEPARATOR (firstn k1 (blocks_from 1 [long_result; long_result; long_result]))
    /\ build_context [long_result; long_result; long_result] 1200
       = join SEPARATOR (firstn k2 (blocks_from 1 [long_result; long_result; long_result])).
Proof.
  apply (build_context_monotone [long_result; long_result; long_result] 600 1200). lia.
Defined.

(** X13: when the lengths of all blocks plus 2 per block fit [max_chars],
    every result is in the context; when the first block alone does not fit,
    the context is empty, whatever follows. *)
Theorem build_context_all_or_none :
  forall (results : list result) (max_chars : Z),
    (budget (blocks_from 1 results) <= max_chars ->
     build_context results max_chars = join SEPARATOR (blocks_from 1 results))
    /\ (forall (r : result) (rest : list result),
           results = r :: rest ->
           max_chars < len (render_block 1 r) + 2 ->
           build_context results max_chars = []).
Proof.
  intros results max_chars. split.
  - intros Hfit.
    destruct (accumulate_prefix results max_chars 1 0 []) as (k & Hk & Heq & _ & Hnext).
    unfold build_context. rewrite Heq. simpl app.
    destruct (Nat.eq_dec k (length results)) as [->|Hne].
    + rewrite <- (blocks_from_length results 1), firstn_all. reflexivity.
    + exfalso. specialize (Hnext ltac:(lia)).
      pose proof (budget_firstn_mono (blocks_from 1 results) (S k)
                    (length (blocks_from 1 results))) as Hm.
      rewrite blocks_from_length, <- (blocks_from_length results 1), firstn_all in Hm.
      rewrite blocks_from_length in Hm. specialize (Hm ltac:(lia)). lia.
  - intros r rest -> Hbig. unfold build_context. rewrite accumulate_step.
    destruct (max_chars <? 0 + len (render_block 1 r) + 2) eqn:E; [reflexivity|].
    apply Z.ltb_ge in E. lia.
Qed.

Lemma build_context_all_or_none_witness :
  build_context [long_result; long_result] 1004
  = join SEPARATOR (blocks_from 1 [long_result; long_result])
  /\ build_context [long_result; long_result] 501 = [].
Proof.
  destruct (build_context_all_or_none [long_result; long_result] 1004) as [Hall _].
  destruct (build_context_all_or_none [long_result; long_result] 501) as [_ Hnone].
  split.
  - apply Hall. vm_compute. discriminate.
  - apply (Hnone long_result [long_result]); [reflexivity|vm_compute; reflexivity].
Defined.

(** X14: the budget of [allowed_context_chars] is never too small for a
    first block of at most 1022 characters: whatever the context window, the
    answer budget and the overhead, such a block opens the context. *)
Theorem first_block_always_fits :
  forall (r : result) (rest : list result) (n_ctx max_answer_tokens overhead : Z),
    len (render_block 1 r) <= 1022 ->
    exists more : pystr,
      build_context (r :: rest) (allowed_context_chars n_ctx max_answer_tokens overhead)
      = render_block 1 r ++ more.
Proof.
  intros r rest n_ctx a o Hlen.
  unfold build_context. rewrite accumulate_step.
  assert (1024 <= allowed_context_chars n_ctx a o) as Hfloor.
  { unfold allowed_context_chars. lia. }
  destruct (allowed_context_chars n_ctx a o <? 0 + len (render_block 1 r) + 2) eqn:E;
    [apply Z.ltb_lt in E; lia|].
  destruct (accumulate_prefix rest (allowed_context_chars n_ctx a o) (1 + 1)
              (0 + len (render_block 1 r) + 2) ([] ++ [render_block 1 r]))
    as (k & _ & -> & _).
  generalize (firstn k (blocks_from (1 + 1) rest)). intros [|b bs]; simpl app.
  - exists []. symmetry. apply app_nil_r.
  - exists (SEPARATOR ++ join SEPARATOR (b :: bs)). reflexivity.
Qed.

Lemma first_block_always_fits_witness :
  exists more : pystr,
    build_context [long_result; long_result] (allowed_context_chars 512 400 400)
    = render_block 1 long_result ++ more.
Proof.
  apply (first_block_always_fits long_result [long_result] 512 400 400).
  vm_compute. discriminate.
Defined.

(** X15: [embed_query] rejects an empty or whitespace-only query with
    [ValueError] whatever the embedding model is, and otherwise gives the
    result of the stripped query: whitespace around a query never changes
    its embedding. *)
Theorem embed_query_strips :
  forall (vec : Type) (embed : string -> list pystr -> outcome (list vec))
         (query : pystr) (model : string),
    (is_empty (strip query) = true ->
     embed_query embed query model = Raise (ValueError "Query is empty"))
    /\ (is_empty (strip query) = false ->
        embed_query embed query model = embed_query embed (strip query) model
        /\ embed_query embed query model
           = bind (embed model [strip query])
               (fun vecs => match vecs with
                            | v :: _ => Ret (inr v)
                            | [] => Ret (inl IndexError)
                            end)).
Proof.
  intros vec embed query model. unfold embed_query. split.
  - intros ->. rewrite orb_true_r. reflexivity.
  - intros Hne. rewrite strip_idem, Hne.
    assert (is_empty query = false) as ->.
    { destruct query; [discriminate Hne|reflexivity]. }
    assert (is_empty (strip query) = false) as Hne' by exact Hne.
    destruct (strip query) eqn:Es; [discriminate Hne|].
    simpl. split; reflexivity.
Qed.

Lemma embed_query_strips_witness :
  embed_query unit_embed (lit "   ") "m" = Raise (ValueError "Query is empty")
  /\ embed_query unit_embed (lit "  what is this? ") "m"
     = embed_query unit_embed (strip (lit "  what is this? ")) "m".
Proof.
  destruct (embed_query_strips unit unit_embed (lit "   ") "m") as [Hblank _].
  destruct (embed_query_strips unit unit_embed (lit "  what is this? ") "m")
    as [_ Hstrip].
  split; [apply Hblank; reflexivity|apply Hstrip; reflexivity].
Defined.

(** ** More on the chunker *)

Lemma strip_nonempty_stripped (chunks : list pystr) :
  Forall (fun c => strip c = c) (strip_nonempty chunks).
Proof.
  unfold strip_nonempty. apply Forall_map, Forall_forall.
  intros c _. apply strip_idem.
Qed.

Lemma chunk_by_char_stripped (fuel : nat) (text_ : pystr) (cst ovt : Z)
    (out : list pystr) :
  chunk_by_char fuel text_ cst ovt = Ret out -> Forall (fun c => strip c = c) out.
Proof.
  unfold chunk_by_char. intros H.
  destruct (is_empty text_); [injection H as <-; constructor|].
  destruct (cst * Chunker.TOKEN_TO_CHAR <=? 0); [discriminate H|].
  destruct (chunk_loop fuel text_ _ _ 0 []) as [chunks|]; [|discriminate H].
  injection H as <-. apply strip_nonempty_stripped.
Qed.

Lemma chunk_each_stripped (fuel : nat) (parts : list pystr) (cst ovt : Z) :
  forall out, chunk_each fuel parts cst ovt = Ret out -> Forall (fun c => strip c = c) out.
Proof.
  induction parts as [|part rest IH]; intros out H.
  - injection H as <-. constructor.
  - simpl in H. apply bind_ret_inv in H. destruct H as (cs & Hcs & H).
    apply bind_ret_inv in H. destruct H as (more & Hmore & H).
    injection H as <-. apply Forall_app. split.
    + apply (chunk_by_char_stripped _ _ _ _ _ Hcs).
    + apply (IH _ Hmore).
Qed.

Lemma emit_file_type (r p : pystr) (ft : file_type) (chunks : list pystr) :
  forall i : Z,
    Forall (fun c => file_type_of (chunk_metadata c) = ft) (emit r p ft i chunks).
Proof.
  induction chunks as [|c rest IH]; intros i; simpl; [constructor|].
  destruct (is_empty (strip c)); [apply IH|]. constructor; [reflexivity|apply IH].
Qed.

Lemma chunk_file_inv_stripped (fuel : nat) (content_ r p : pystr) (cst ovt : Z)
    (out : list chunk) :
  chunk_file fuel content_ r p cst ovt = Ret out ->
  exists chunks,
    chunks_ok cst chunks /\ Forall (fun c => strip c = c) chunks
    /\ out = emit r p (detect_file_type p) 0 chunks.
Proof.
  unfold chunk_file. intros H.
  apply bind_ret_inv in H. destruct H as (chunks & Hchunks & H).
  injection H as <-. exists chunks.
  destruct (detect_file_type p).
  - repeat split; [apply (chunk_each_ok _ _ _ _ _ Hchunks)
                  |apply (chunk_each_stripped _ _ _ _ _ Hchunks)].
  - apply bind_ret_inv in Hchunks. destruct Hchunks as (blocks & _ & Hchunks).
    repeat split; [apply (chunk_each_ok _ _ _ _ _ Hchunks)
                  |apply (chunk_each_stripped _ _ _ _ _ Hchunks)].
  - repeat split; [apply (chunk_by_char_ok _ _ _ _ _ Hchunks)
                  |apply (chunk_by_char_stripped _ _ _ _ _ Hchunks)].
  - repeat split; [apply (chunk_by_char_ok _ _ _ _ _ Hchunks)
                  |apply (chunk_by_char_stripped _ _ _ _ _ Hchunks)].
  - repeat split; [apply (chunk_by_char_ok _ _ _ _ _ Hchunks)
                  |apply (chunk_by_char_stripped _ _ _ _ _ Hchunks)].
Qed.

Lemma chunk_file_chunks_props (fuel : nat) (content_ r p : pystr) (cst ovt : Z)
    (out : list chunk) :
  chunk_file fuel content_ r p cst ovt = Ret out ->
  Forall (fun c =>
            content c <> [] /\ strip (content c) = content c
            /\ repo (chunk_metadata c) = r /\ file_path (chunk_metadata c) = p
            /\ file_type_of (chunk_metadata c) = detect_file_type p) out.
Proof.
  intros H.
  apply chunk_file_inv_stripped in H. destruct H as (chunks & Hok & Hst & ->).
  destruct (emit_all r p (detect_file_type p) cst chunks Hok 0) as (H1 & _ & H3).
  pose proof (emit_file_type r p (detect_file_type p) chunks 0) as H4.
  assert (Forall (fun c => content c <> [] /\ strip (content c) = content c)
            (emit r p (detect_file_type p) 0 chunks)) as H5.
  { apply (proj1 (Forall_map content (fun s => s <> [] /\ strip s = s) _)).
    rewrite H1. unfold chunks_ok in Hok.
    rewrite Forall_forall in *. intros c Hc. split.
    - intros ->. destruct (Hok [] Hc) as [Habs _]. discriminate Habs.
    - apply (Hst c Hc). }
  rewrite Forall_forall in *. intros c Hc.
  destruct (H3 c Hc) as [Hr Hp]. destruct (H5 c Hc) as [Hne Hs].
  repeat split; try assumption. apply (H4 c Hc).
Qed.

(** X16: no chunk that [chunk_file] returns is empty or whitespace-only, and
    none begins or ends with whitespace; all carry the repo, the path and the
    file type of the path. *)
Theorem chunk_file_chunks_stripped :
  forall (fuel : nat) (content_ r p : pystr) (chunk_size_tokens overlap_tokens : Z)
         (out : list chunk),
    chunk_file fuel content_ r p chunk_size_tokens overlap_tokens = Ret out ->
    Forall (fun c =>
              content c <> [] /\ strip (content c) = content c
              /\ repo (chunk_metadata c) = r /\ file_path (chunk_metadata c) = p
              /\ file_type_of (chunk_metadata c) = detect_file_type p) out.
Proof.
  intros fuel content_ r p cst ovt out. apply chunk_file_chunks_props.
Qed.

Lemma chunk_file_chunks_stripped_witness :
  exists out : list chunk,
    chunk_file 50 two_defs (lit "owner/repo") (lit "pkg/mod.py") 1000 200 = Ret out
    /\ length out = 2%nat
    /\ Forall (fun c =>
                 content c <> [] /\ strip (content c) = content c
                 /\ repo (chunk_metadata c) = lit "owner/repo"
                 /\ file_path (chunk_metadata c) = lit "pkg/mod.py"
                 /\ file_type_of (chunk_metadata c) = detect_file_type (lit "pkg/mod.py"))
         out.
Proof.
  destruct (chunk_file 50 two_defs (lit "owner/repo") (lit "pkg/mod.py") 1000 200)
    as [out| |] eqn:Hrun; [|vm_compute in Hrun; discriminate Hrun ..].
  exists out. split; [reflexivity|]. split.
  - vm_compute in Hrun. injection Hrun as <-. reflexivity.
  - apply (chunk_file_chunks_stripped 50 two_defs _ _ 1000 200 out Hrun).
Defined.

(** X17: a text that fits one window gives one chunk, the stripped text, or
    none when the text is blank: one iteration is enough, whatever the
    overlap, even one that is larger than the chunk size. *)
Theorem chunk_by_char_single_window :
  forall (fuel : nat) (text_ : pystr) (chunk_size_tokens overlap_tokens : Z),
    (1 <= fuel)%nat ->
    0 < chunk_size_tokens ->
    len text_ <= chunk_size_tokens * 4 ->
    chunk_by_char fuel text_ chunk_size_tokens overlap_tokens
    = Ret (if is_empty (strip text_) then [] else [strip text_]).
Proof.
  intros fuel text_ cst ovt Hfuel Hcs Hlen.
  destruct text_ as [|c rest] eqn:Et; [reflexivity|]. rewrite <- Et in *.
  assert (text_ <> []) as Hne by (rewrite Et; discriminate).
  unfold chunk_by_char, Chunker.TOKEN_TO_CHAR.
  rewrite (is_empty_false text_ Hne).
  destruct (cst * 4 <=? 0) eqn:E; [apply Z.leb_le in E; lia|].
  destruct fuel as [|fuel]; [lia|].
  rewrite chunk_loop_step.
  pose proof (len_pos text_ Hne) as Hpos.
  destruct (0 <? len text_) eqn:E1; [|apply Z.ltb_ge in E1; lia].
  destruct (len text_ <=? 0 + cst * 4) eqn:E2; [|apply Z.leb_gt in E2; lia].
  rewrite slice_tail by lia. simpl skipn. simpl app.
  unfold strip_nonempty. simpl filter.
  destruct (is_empty (strip text_)); reflexivity.
Qed.

Lemma chunk_by_char_single_window_witness :
  chunk_by_char 1 (lit "  short text ") 10 99
  = Ret (if is_empty (strip (lit "  short text ")) then []
         else [strip (lit "  short text ")]).
Proof.
  apply (chunk_by_char_single_window 1 (lit "  short text ") 10 99); try lia.
  vm_compute. discriminate.
Defined.

Lemma slice_as_firstn {A : Type} (s : list A) (lo hi : Z) :
  0 <= lo -> lo <= hi ->
  slice s lo hi = firstn (Z.to_nat (hi - lo)) (skipn (Z.to_nat lo) s).
Proof.
  intros Hlo Hhi. unfold slice, clamp_index.
  destruct (lo <? 0) eqn:E1; [apply Z.ltb_lt in E1; lia|].
  destruct (hi <? 0) eqn:E2; [apply Z.ltb_lt in E2; lia|].
  pose proof (len_nonneg s) as Hn. unfold len in *.
  destruct (Z_le_gt_dec lo (Z.of_nat (length s))) as [Hin|Hout].
  - rewrite (Z.min_l lo) by lia.
    destruct (Z_le_gt_dec hi (Z.of_nat (length s))) as [Hin'|Hout'].
    + rewrite (Z.min_l hi) by lia. reflexivity.
    + rewrite (Z.min_r hi) by lia.
      rewrite !firstn_all2; [reflexivity|rewrite length_skipn; lia ..].
  - rewrite (Z.min_r lo), (Z.min_r hi) by lia.
    rewrite !skipn_all2 by lia. rewrite !firstn_nil. reflexivity.
Qed.

Lemma firstn_then_window {A : Type} (l : list A) (a b : nat) :
  firstn a l ++ firstn b (skipn a l) = firstn (a + b) l.
Proof.
  revert l. induction a as [|a IH]; intros l; [reflexivity|].
  destruct l as [|x l]; [simpl; rewrite firstn_nil; reflexivity|].
  simpl. rewrite IH. reflexivity.
Qed.

Lemma skipn_window {A : Type} (l : list A) (a n k : nat) :
  skipn k (firstn n (skipn a l)) = firstn (n - k) (skipn (a + k) l).
Proof.
  rewrite skipn_firstn_comm, skipn_skipn. f_equal. f_equal. lia.
Qed.

Lemma reassemble_snoc (overlap : nat) (chunks : list pystr) (c : pystr) :
  chunks <> [] ->
  reassemble overlap (chunks ++ [c]) = reassemble overlap chunks ++ skipn overlap c.
Proof.
  destruct chunks as [|c0 rest]; [congruence|]. intros _.
  simpl. rewrite map_app, concat_app. simpl. rewrite app_nil_r, app_assoc. reflexivity.
Qed.

Lemma chunk_loop_reassemble (text_ : pystr) (cs ov : Z) :
  0 < cs -> 0 <= ov < cs ->
  forall (fuel : nat) (start : Z) (chunks raw : list pystr),
    chunks <> [] ->
    0 <= start ->
    start + ov < len text_ ->
    reassemble (Z.to_nat ov) chunks = firstn (Z.to_nat (start + ov)) text_ ->
    chunk_loop fuel text_ cs ov start chunks = Some raw ->
    reassemble (Z.to_nat ov) raw = text_.
Proof.
  intros Hcs Hov.
  induction fuel as [|fuel IH]; intros start chunks raw Hne Hstart Hin Hpre H.
  - discriminate H.
  - rewrite chunk_loop_step in H.
    destruct (start <? len text_) eqn:E1; [|apply Z.ltb_ge in E1; lia].
    assert (reassemble (Z.to_nat ov) (chunks ++ [slice text_ start (start + cs)])
            = firstn (Z.to_nat (start + cs)) text_) as Hnew.
    { rewrite (reassemble_snoc _ _ _ Hne), Hpre, slice_as_firstn by lia.
      rewrite skipn_window.
      replace (Z.to_nat start + Z.to_nat ov)%nat with (Z.to_nat (start + ov)) by lia.
      rewrite firstn_then_window. f_equal. lia. }
    destruct (len text_ <=? start + cs) eqn:E2.
    + injection H as <-. rewrite Hnew. apply Z.leb_le in E2.
      apply firstn_all2. unfold len in E2. lia.
    + apply Z.leb_gt in E2.
      apply (IH (Z.max 0 (start + cs - ov))
               (chunks ++ [slice text_ start (start + cs)]) raw); try lia.
      * destruct chunks; discriminate.
      * rewrite Hnew. f_equal. lia.
      * exact H.
Qed.

(** X18: with a positive chunk size and [0 <= overlap < chunk size] the
    windows of [chunk_by_char] lose no character and repeat exactly the
    overlap: the first window followed by every later window without its
    first [overlap] characters is the text; the chunks returned are these
    windows, stripped, the blank ones apart. *)
Theorem chunk_windows_reassemble :
  forall (fuel : nat) (text_ : pystr) (chunk_size_tokens overlap_tokens : Z)
         (raw : list pystr),
    0 < chunk_size_tokens ->
    0 <= overlap_tokens < chunk_size_tokens ->
    chunk_loop fuel text_ (chunk_size_tokens * 4) (overlap_tokens * 4) 0 [] = Some raw ->
    reassemble (Z.to_nat (overlap_tokens * 4)) raw = text_
    /\ chunk_by_char fuel text_ chunk_size_tokens overlap_tokens = Ret (strip_nonempty raw).
Proof.
  intros fuel text_ cst ovt raw Hcs Hov H.
  split.
  - destruct fuel as [|fuel]; [discriminate H|].
    rewrite chunk_loop_step in H.
    destruct (0 <? len text_) eqn:E1.
    + apply Z.ltb_lt in E1.
      assert (slice text_ 0 (0 + cst * 4) = firstn (Z.to_nat (cst * 4)) text_) as Hs.
      { rewrite slice_as_firstn by lia. simpl skipn. f_equal. lia. }
      rewrite Hs in H.
      change ([] ++ [firstn (Z.to_nat (cst * 4)) text_])
        with [firstn (Z.to_nat (cst * 4)) text_] in H.
      destruct (len text_ <=? 0 + cst * 4) eqn:E2.
      * injection H as <-. simpl. rewrite app_nil_r. apply Z.leb_le in E2.
        apply firstn_all2. unfold len in E2. lia.
      * apply Z.leb_gt in E2.
        apply (chunk_loop_reassemble text_ (cst * 4) (ovt * 4) ltac:(lia) ltac:(lia)
                 fuel (Z.max 0 (0 + cst * 4 - ovt * 4))
                 [firstn (Z.to_nat (cst * 4)) text_] raw); try lia.
        -- discriminate.
        -- simpl. rewrite app_nil_r. f_equal. lia.
        -- exact H.
    + injection H as <-. apply Z.ltb_ge in E1.
      destruct text_; [reflexivity|]. rewrite len_cons in E1.
      pose proof (len_nonneg text_). lia.
  - unfold chunk_by_char, Chunker.TOKEN_TO_CHAR.
    destruct (is_empty text_) eqn:Ee.
    + destruct text_; [|discriminate Ee].
      destruct fuel as [|fuel]; [discriminate H|].
      rewrite chunk_loop_step in H. simpl in H. injection H as <-. reflexivity.
    + destruct (cst * 4 <=? 0) eqn:E; [apply Z.leb_le in E; lia|].
      rewrite H. reflexivity.
Qed.

Lemma chunk_windows_reassemble_witness :
  exists raw : list pystr,
    chunk_loop 10 (lit "abcdefghij  klmnop") (2 * 4) (1 * 4) 0 [] = Some raw
    /\ length raw = 4%nat
    /\ reassemble (Z.to_nat (1 * 4)) raw = lit "abcdefghij  klmnop"
    /\ chunk_by_char 10 (lit "abcdefghij  klmnop") 2 1 = Ret (strip_nonempty raw).
Proof.
  destruct (chunk_loop 10 (lit "abcdefghij  klmnop") (2 * 4) (1 * 4) 0 [])
    as [raw|] eqn:Hrun; [|vm_compute in Hrun; discriminate Hrun].
  exists raw. split; [reflexivity|]. split.
  - vm_compute in Hrun. injection Hrun as <-. reflexivity.
  - apply (chunk_windows_reassemble 10 (lit "abcdefghij  klmnop") 2 1 raw); try lia.
    exact Hrun.
Defined.

Lemma tl_app_nonempty {A : Type} (a b : list A) :
  a <> [] -> tl (a ++ b) = tl a ++ b.
Proof. destruct a; [congruence|reflexivity]. Qed.

Lemma group_blocks_inv (l : lang) (lines : list pystr) :
  forall (blocks : list (list pystr)) (current : list pystr),
    Forall (fun b => b <> []) blocks ->
    Forall (starts_block l) (tl (blocks ++ [current])) ->
    Forall (no_starter_inside l) (blocks ++ [current]) ->
    let bs := fst (group_blocks l lines blocks current) in
    let cur := snd (group_blocks l lines blocks current) in
    concat (bs ++ [cur]) = concat (blocks ++ [current]) ++ lines
    /\ Forall (fun b => b <> []) bs
    /\ Forall (starts_block l) (tl (bs ++ [cur]))
    /\ Forall (no_starter_inside l) (bs ++ [cur]).
Proof.
  induction lines as [|line rest IH]; intros blocks current Hne Hst Hin; cbv zeta.
  - simpl. rewrite app_nil_r. repeat split; assumption.
  - simpl group_blocks.
    apply Forall_app in Hin. destruct Hin as [Hin Hcur].
    apply Forall_inv in Hcur.
    destruct (starter_match l line && negb (is_empty current)) eqn:E.
    + apply andb_true_iff in E. destruct E as [Es Ec].
      assert (current <> []) as Hc by (destruct current; [discriminate Ec|discriminate]).
      destruct (IH (blocks ++ [current]) [line]) as (H1 & H2 & H3 & H4).
      * apply Forall_app. split; [exact Hne|constructor; [exact Hc|constructor]].
      * rewrite tl_app_nonempty by (destruct blocks; discriminate).
        apply Forall_app. split; [exact Hst|].
        constructor; [exact Es|constructor].
      * apply Forall_app. split.
        -- apply Forall_app. split; [exact Hin|constructor; [exact Hcur|constructor]].
        -- constructor; [constructor|constructor].
      * repeat split; try assumption.
        rewrite H1. rewrite !concat_app. simpl. rewrite !app_nil_r, <- !app_assoc.
        reflexivity.
    + destruct (IH blocks (current ++ [line])) as (H1 & H2 & H3 & H4).
      * exact Hne.
      * destruct blocks as [|b0 blocks']; [constructor|].
        simpl tl in *. apply Forall_app in Hst. destruct Hst as [Hst1 Hst2].
        apply Forall_app. split; [exact Hst1|].
        apply Forall_inv in Hst2. constructor; [|constructor].
        destruct current; [contradiction|exact Hst2].
      * apply Forall_app. split; [exact Hin|]. constructor; [|constructor].
        unfold no_starter_inside in *.
        destruct current as [|c0 current']; [constructor|].
        simpl tl in *. apply Forall_app. split; [exact Hcur|].
        constructor; [|constructor].
        simpl is_empty in E. simpl negb in E. rewrite andb_true_r in E. exact E.
      * repeat split; try assumption.
        rewrite H1. rewrite !concat_app. simpl. rewrite !app_nil_r, <- !app_assoc.
        reflexivity.
Qed.

(** X19: the loop of [split_code_by_defs] cuts the lines into consecutive
    blocks: end to end the blocks are the lines; every block after the first
    begins with a line that starts a definition, and no block has such a
    line after its first line. *)
Theorem group_blocks_partition :
  forall (l : lang) (lines : list pystr),
    let blocks := fst (group_blocks l lines [] []) in
    let current := snd (group_blocks l lines [] []) in
    concat (blocks ++ [current]) = lines
    /\ Forall (fun b => b <> []) blocks
    /\ Forall (starts_block l) (tl (blocks ++ [current]))
    /\ Forall (no_starter_inside l) (blocks ++ [current]).
Proof.
  intros l lines.
  apply (group_blocks_inv l lines [] []).
  - constructor.
  - constructor.
  - constructor; [constructor|constructor].
Qed.

(** X20: [split_code_by_defs] never raises: it returns for every text, its
    blocks are stripped and not blank, and when it returns a single block
    (the fallback to [chunk_by_char] with the default sizes) the block has at
    most 4000 characters. *)
Theorem split_code_by_defs_blocks :
  forall (text_ : pystr) (l : lang),
  exists out : list pystr,
    returns (fun fuel => split_code_by_defs fuel text_ l) out
    /\ Forall (fun b => b <> [] /\ strip b = b) out
    /\ ((length out <= 1)%nat -> Forall (fun b => len b <= 4000) out).
Proof.
  intros text_ l.
  destruct (split_code_by_defs_returns text_ l) as [out Hout].
  exists out. split; [exact Hout|].
  destruct Hout as [fuel0 Hout]. specialize (Hout fuel0 (Nat.le_refl _)).
  unfold split_code_by_defs in Hout.
  destruct (is_empty text_); [injection Hout as <-; split; [constructor|intros _; constructor]|].
  destruct (group_blocks l (split_char nl text_) [] []) as [blocks current].
  match type of Hout with
  | (if ?b then _ else Ret ?v) = _ => destruct b eqn:E
  end.
  - pose proof (chunk_by_char_ok _ _ _ _ _ Hout) as Hok.
    pose proof (chunk_by_char_stripped _ _ _ _ _ Hout) as Hst.
    unfold chunks_ok in Hok. rewrite Forall_forall in *. split.
    + intros b Hb. split; [|apply (Hst b Hb)].
      intros ->. destruct (Hok [] Hb) as [Habs _]. discriminate Habs.
    + intros _. apply Forall_forall. intros b Hb. destruct (Hok b Hb) as [_ Hlen]. lia.
  - injection Hout as <-. apply Z.leb_gt in E. split.
    + apply Forall_map, Forall_forall. intros b Hb.
      apply filter_In in Hb. destruct Hb as [_ Hb]. split.
      * intros Habs. rewrite Habs in Hb. discriminate Hb.
      * apply strip_idem.
    + intros Hle. unfold len in E. lia.
Qed.

(** ** Ids within a file *)

Lemma list_ascii_of_string_inj (a b : string) :
  list_ascii_of_string a = list_ascii_of_string b -> a = b.
Proof.
  intros H.
  rewrite <- (string_of_list_ascii_of_string a), <- (string_of_list_ascii_of_string b), H.
  reflexivity.
Qed.

Lemma to_int_not_nil (z : Z) :
  Z.to_int z <> Decimal.Pos Decimal.Nil /\ Z.to_int z <> Decimal.Neg Decimal.Nil.
Proof.
  destruct z; simpl; split; try discriminate; intros H; injection H as H;
    apply (Unsigned.to_uint_nonnil _ H).
Qed.

(** [str] of an integer determines the integer. *)
Lemma str_of_int_inj (a b : Z) : str_of_int a = str_of_int b -> a = b.
Proof.
  unfold str_of_int. intros H. apply list_ascii_of_string_inj in H.
  apply DecimalZ.to_int_inj.
  destruct (to_int_not_nil a) as [Ha1 Ha2]. destruct (to_int_not_nil b) as [Hb1 Hb2].
  pose proof (NilZero.isi (Z.to_int a) Ha1 Ha2) as Ia.
  pose proof (NilZero.isi (Z.to_int b) Hb1 Hb2) as Ib.
  rewrite H in Ia. congruence.
Qed.

Lemma zrange_In (n : nat) :
  forall (i x : Z), In x (zrange i n) -> i <= x < i + Z.of_nat n.
Proof.
  induction n as [|n IH]; intros i x H; [destruct H|].
  simpl in H. destruct H as [<-|H]; [lia|]. apply IH in H. lia.
Qed.

Lemma zrange_NoDup (n : nat) : forall i : Z, NoDup (zrange i n).
Proof.
  induction n as [|n IH]; intros i; simpl; constructor; [|apply IH].
  intros H. apply zrange_In in H. lia.
Qed.

Lemma NoDup_map_inj {A B : Type} (f : A -> B) (l : list A) :
  (forall x y, f x = f y -> x = y) -> NoDup l -> NoDup (map f l).
Proof.
  intros Hinj. induction 1 as [|x l Hx _ IH]; simpl; constructor; [|exact IH].
  intros Hin. apply in_map_iff in Hin. destruct Hin as (y & Hy & Hin).
  apply Hinj in Hy. subst. contradiction.
Qed.

Lemma joined_id_inj (r p : pystr) (i j : Z) : joined_id r p i = joined_id r p j -> i = j.
Proof.
  unfold joined_id. intros H.
  repeat apply app_inv_head in H. apply str_of_int_inj. exact H.
Qed.

(** X21: the ids that the indexer derives for the chunks of one file are
    pairwise distinct: within a file no chunk overwrites another in the
    store. *)
Theorem chunk_file_ids_distinct :
  forall (fuel : nat) (content_ r p : pystr) (chunk_size_tokens overlap_tokens : Z)
         (out : list chunk),
    chunk_file fuel content_ r p chunk_size_tokens overlap_tokens = Ret out ->
    NoDup (record_ids (map jsonl_record out))
    /\ length (record_ids (map jsonl_record out)) = length out.
Proof.
  intros fuel content_ r p cst ovt out H.
  destruct (chunk_file_numbering _ _ _ _ _ _ _ H) as (Hidx & Hrp & _).
  destruct (joined_ids_of_numbering r p out Hrp) as [Hids _].
  rewrite record_ids_jsonl, Hids, Hidx. split.
  - apply NoDup_map_inj; [|apply zrange_NoDup].
    intros i j. apply joined_id_inj.
  - rewrite length_map, zrange_length. reflexivity.
Qed.

Lemma chunk_file_ids_distinct_witness :
  exists out : list chunk,
    chunk_file 50 readme_example (lit "owner/repo") (lit "README.md") 1000 200 = Ret out
    /\ NoDup (record_ids (map jsonl_record out))
    /\ length (record_ids (map jsonl_record out)) = length out.
Proof.
  destruct (chunk_file 50 readme_example (lit "owner/repo") (lit "README.md") 1000 200)
    as [out| |] eqn:Hrun; [|vm_compute in Hrun; discriminate Hrun ..].
  exists out. split; [reflexivity|].
  apply (chunk_file_ids_distinct 50 readme_example _ _ 1000 200 out Hrun).
Defined.

Lemma prepare_ids_no_metadata (chunks : list chunk_record) :
  Forall (fun rec => rec_metadata rec = None) chunks ->
  forall idx : Z,
    fst (fst (prepare idx chunks))
    = map (fun i => lit "::::" ++ str_of_int i) (zrange idx (length chunks)).
Proof.
  induction 1 as [|rec rest Hrec _ IH]; intros idx; [reflexivity|].
  simpl. specialize (IH (idx + 1)).
  destruct (prepare (idx + 1) rest) as [[ids metadatas] docs].
  simpl in *. rewrite IH. f_equal.
  unfold record_id, record_meta. rewrite Hrec. reflexivity.
Qed.

(** X22: records without metadata get their ids from their position in the
    chunk file ([::::0], [::::1], ...): the missing keys default to empty
    strings and to the position, and the ids are still pairwise distinct. *)
Theorem record_ids_without_metadata :
  forall chunks : list chunk_record,
    Forall (fun rec => rec_metadata rec = None) chunks ->
    record_ids chunks
    = map (fun i => lit "::::" ++ str_of_int i) (zrange 0 (length chunks))
    /\ NoDup (record_ids chunks).
Proof.
  intros chunks Hall. unfold record_ids.
  rewrite (prepare_ids_no_metadata chunks Hall 0). split; [reflexivity|].
  apply NoDup_map_inj; [|apply zrange_NoDup].
  intros i j H. apply (joined_id_inj [] []). exact H.
Qed.

Lemma record_ids_without_metadata_witness :
  record_ids [mk_chunk_record (Some (lit "a")) None; mk_chunk_record None None]
  = map (fun i => lit "::::" ++ str_of_int i) (zrange 0 2)
  /\ NoDup (record_ids [mk_chunk_record (Some (lit "a")) None; mk_chunk_record None None]).
Proof.
  apply (record_ids_without_metadata
           [mk_chunk_record (Some (lit "a")) None; mk_chunk_record None None]).
  repeat constructor.
Defined.

(** ** Normalization *)

Lemma lstrip_suffix (s : pystr) : exists w, s = w ++ lstrip s.
Proof.
  induction s as [|c r [w IH]]; [exists []; reflexivity|]. simpl.
  destruct (isspace c); [exists (c :: w); simpl; f_equal; exact IH|exists []; reflexivity].
Qed.

Lemma rstrip_prefix (s : pystr) : exists w, s = rstrip s ++ w.
Proof.
  unfold rstrip. destruct (lstrip_suffix (rev s)) as [w Hw].
  exists (rev w). rewrite <- rev_app_distr, <- Hw, rev_involutive. reflexivity.
Qed.

Lemma strip_infix (s : pystr) : exists u w, s = u ++ strip s ++ w.
Proof.
  unfold strip. destruct (lstrip_suffix s) as [u Hu].
  destruct (rstrip_prefix (lstrip s)) as [w Hw].
  exists u, w. rewrite <- Hw. exact Hu.
Qed.

Lemma In_rstrip (c : ascii) (s : pystr) : In c (rstrip s) -> In c s.
Proof.
  intros H. destruct (rstrip_prefix s) as [w Hw]. rewrite Hw.
  apply in_or_app. left. exact H.
Qed.

Lemma In_strip (c : ascii) (s : pystr) : In c (strip s) -> In c s.
Proof.
  intros H. destruct (strip_infix s) as (u & w & Hs). rewrite Hs.
  apply in_or_app. right. apply in_or_app. left. exact H.
Qed.

Lemma startswith_single (a c : ascii) (r : pystr) :
  startswith [a] (c :: r) = Ascii.eqb a c.
Proof. simpl. apply andb_true_r. Qed.

Lemma replace_from_In (old new : pystr) (s : pystr) :
  forall (skip : nat) (c : ascii),
    In c (replace_from old new skip s) -> In c new \/ In c s.
Proof.
  induction s as [|a r IH]; intros skip c H; [destruct H|].
  simpl in H. destruct skip as [|k].
  - destruct (startswith old (a :: r)).
    + apply in_app_or in H. destruct H as [H|H]; [left; exact H|].
      apply IH in H. destruct H; [left|right; right]; assumption.
    + destruct H as [<-|H]; [right; left; reflexivity|].
      apply IH in H. destruct H; [left|right; right]; assumption.
  - apply IH in H. destruct H; [left|right; right]; assumption.
Qed.

Lemma replace_from_step (old new : pystr) (c : ascii) (r : pystr) :
  replace_from old new 0 (c :: r)
  = if startswith old (c :: r)
    then new ++ replace_from old new (length old - 1) r
    else c :: replace_from old new 0 r.
Proof. reflexivity. Qed.

Lemma replace_cr_no_cr (s : pystr) : ~ In cr (replace [cr] [nl] s).
Proof.
  unfold replace. induction s as [|a r IH]; [intros []|].
  rewrite replace_from_step, startswith_single.
  change (length [cr] - 1)%nat with 0%nat.
  destruct (Ascii.eqb cr a) eqn:E.
  - change ([nl] ++ replace_from [cr] [nl] 0 r) with (nl :: replace_from [cr] [nl] 0 r).
    intros [H|H]; [discriminate H|exact (IH H)].
  - intros [H|H]; [|exact (IH H)].
    subst a. rewrite Ascii.eqb_refl in E. discriminate E.
Qed.

Lemma split_char_In (sep : ascii) (s : pystr) :
  forall line, In line (split_char sep s) -> forall c, In c line -> In c s /\ c <> sep.
Proof.
  induction s as [|a r IH]; intros line Hline c Hc.
  - destruct Hline as [<-|[]]. destruct Hc.
  - simpl in Hline. destruct (Ascii.eqb a sep) eqn:E.
    + destruct Hline as [<-|Hline]; [destruct Hc|].
      destruct (IH line Hline c Hc). split; [right|]; assumption.
    + destruct (split_char sep r) as [|h t] eqn:Es.
      * destruct Hline as [<-|[]]. destruct Hc as [<-|[]].
        split; [left; reflexivity|]. intros ->. rewrite Ascii.eqb_refl in E. discriminate.
      * destruct Hline as [<-|Hline].
        -- destruct Hc as [<-|Hc].
           ++ split; [left; reflexivity|].
              intros ->. rewrite Ascii.eqb_refl in E. discriminate.
           ++ destruct (IH h (or_introl eq_refl) c Hc). split; [right|]; assumption.
        -- destruct (IH line (or_intror Hline) c Hc). split; [right|]; assumption.
Qed.

Lemma collapse_blank_runs_In (lines : list pystr) :
  forall (blank_run : Z) (line : pystr),
    In line (collapse_blank_runs blank_run lines) -> In line lines.
Proof.
  induction lines as [|l rest IH]; intros br line H; [destruct H|].
  simpl in H.
  destruct (2 <? (if is_blank l then br + 1 else 0)).
  - right. apply (IH _ _ H).
  - destruct H as [<-|H]; [left; reflexivity|right; apply (IH _ _ H)].
Qed.

Lemma join_In (sep : pystr) (parts : list pystr) (c : ascii) :
  In c (join sep parts) -> In c sep \/ exists p, In p parts /\ In c p.
Proof.
  induction parts as [|p rest IH]; [intros []|]. intros H.
  destruct rest as [|p' rest'].
  - right. exists p. split; [left; reflexivity|exact H].
  - change (join sep (p :: p' :: rest')) with (p ++ sep ++ join sep (p' :: rest')) in H.
    apply in_app_or in H. destruct H as [H|H].
    + right. exists p. split; [left; reflexivity|exact H].
    + apply in_app_or in H. destruct H as [H|H]; [left; exact H|].
      destruct (IH H) as [Hs|(q & Hq & Hc)]; [left; exact Hs|].
      right. exists q. split; [right; exact Hq|exact Hc].
Qed.

(** X23: normalized text has no whitespace at either end and no carriage
    return, and normalization invents no character: every character of the
    result is a newline or a character of the input. *)
Theorem normalize_text_clean :
  forall text_ : pystr,
    strip (normalize_text text_) = normalize_text text_
    /\ ~ In cr (normalize_text text_)
    /\ (forall c : ascii, In c (normalize_text text_) -> c = nl \/ In c text_).
Proof.
  intros text_.
  assert (forall c : ascii,
             In c (normalize_text text_) ->
             c = nl \/ In c (replace [cr] [nl] (replace [cr; nl] [nl] text_))) as Hchars.
  { intros c H. unfold normalize_text in H. apply In_strip in H.
    apply join_In in H. destruct H as [[<-|[]]|(line & Hline & Hc)]; [left; reflexivity|].
    apply collapse_blank_runs_In in Hline. apply in_map_iff in Hline.
    destruct Hline as (raw & <- & Hraw). apply In_rstrip in Hc.
    right. apply (split_char_In nl _ raw Hraw c Hc). }
  split; [apply strip_idem|]. split.
  - intros H. destruct (Hchars cr H) as [Habs|Hin]; [discriminate Habs|].
    exact (replace_cr_no_cr _ Hin).
  - intros c H. destruct (Hchars c H) as [->|Hin]; [left; reflexivity|].
    apply replace_from_In in Hin. destruct Hin as [[<-|[]]|Hin]; [left; reflexivity|].
    apply replace_from_In in Hin. destruct Hin as [[<-|[]]|Hin]; [left; reflexivity|].
    right. exact Hin.
Qed.

Lemma newline_runs_weaken (s : pystr) :
  forall r r' : nat,
    (r' <= r)%nat -> newline_runs_ok r s = true -> newline_runs_ok r' s = true.
Proof.
  induction s as [|c s IH]; intros r r' Hle H; [reflexivity|].
  simpl in *. destruct (Ascii.eqb c nl); [|exact H].
  apply andb_true_iff in H. destruct H as [H1 H2]. apply andb_true_iff. split.
  - apply Nat.ltb_lt in H1. apply Nat.ltb_lt. lia.
  - apply (IH (S r) (S r')); [lia|exact H2].
Qed.

Lemma newline_runs_suffix (u s : pystr) :
  forall r : nat, newline_runs_ok r (u ++ s) = true -> newline_runs_ok 0 s = true.
Proof.
  induction u as [|c u IH]; intros r H.
  - apply (newline_runs_weaken s r 0); [lia|exact H].
  - simpl in H. destruct (Ascii.eqb c nl); [|apply (IH _ H)].
    apply andb_true_iff in H. destruct H as [_ H]. apply (IH _ H).
Qed.

Lemma newline_runs_prefix (s w : pystr) :
  forall r : nat, newline_runs_ok r (s ++ w) = true -> newline_runs_ok r s = true.
Proof.
  induction s as [|c s IH]; intros r H; [reflexivity|].
  simpl in *. destruct (Ascii.eqb c nl); [|apply (IH _ H)].
  apply andb_true_iff in H. destruct H as [H1 H2].
  apply andb_true_iff. split; [exact H1|apply (IH _ H2)].
Qed.

Lemma newline_runs_line (l rest : pystr) :
  Forall (fun c => c <> nl) l ->
  newline_runs_ok 0 (l ++ rest) = newline_runs_ok 0 rest.
Proof.
  induction 1 as [|c l Hc _ IH]; [reflexivity|].
  simpl. destruct (Ascii.eqb_spec c nl) as [->|_]; [congruence|exact IH].
Qed.

Lemma newline_runs_nonempty_line (l rest : pystr) (r : nat) :
  l <> [] -> Forall (fun c => c <> nl) l ->
  newline_runs_ok r (l ++ rest) = newline_runs_ok 0 rest.
Proof.
  destruct l as [|c l]; [congruence|]. intros _ Hall.
  apply Forall_cons_iff in Hall. destruct Hall as [Hc Hl].
  simpl. destruct (Ascii.eqb_spec c nl) as [->|_]; [congruence|].
  apply newline_runs_line. exact Hl.
Qed.

Lemma newline_runs_nl (r : nat) (s : pystr) :
  newline_runs_ok r (nl :: s) = ((r <? 3)%nat && newline_runs_ok (S r) s)%bool.
Proof. reflexivity. Qed.

Lemma join_newline_runs (lines : list pystr) :
  Forall (Forall (fun c => c <> nl)) lines ->
  forall k r : nat,
    (r <= k + 1)%nat ->
    blank_lines_ok k lines = true ->
    newline_runs_ok r (join [nl] lines) = true.
Proof.
  induction 1 as [|l rest Hl Hrest IH]; intros k r Hr Hok; [reflexivity|].
  simpl in Hok. destruct l as [|c l'].
  - simpl in Hok. apply andb_true_iff in Hok. destruct Hok as [Hk Hok].
    apply Nat.ltb_lt in Hk.
    destruct rest as [|l2 rest']; [reflexivity|].
    change (join [nl] ([] :: l2 :: rest')) with (nl :: join [nl] (l2 :: rest')).
    rewrite newline_runs_nl.
    apply andb_true_iff. split; [apply Nat.ltb_lt; lia|].
    apply (IH (S k) (S r)); [lia|exact Hok].
  - simpl is_empty in Hok. cbv iota in Hok.
    destruct rest as [|l2 rest'].
    + change (join [nl] [c :: l']) with (c :: l').
      rewrite <- (app_nil_r (c :: l')).
      rewrite newline_runs_nonempty_line; [reflexivity|discriminate|exact Hl].
    + change (join [nl] ((c :: l') :: l2 :: rest'))
        with ((c :: l') ++ nl :: join [nl] (l2 :: rest')).
      rewrite newline_runs_nonempty_line; [|discriminate|exact Hl].
      rewrite newline_runs_nl. simpl andb.
      apply (IH 0%nat 1%nat); [lia|exact Hok].
Qed.

Lemma lstrip_nil_all_space (s : pystr) : lstrip s = [] -> forallb isspace s = true.
Proof.
  induction s as [|c r IH]; [reflexivity|]. simpl.
  destruct (isspace c); [exact IH|discriminate].
Qed.

Lemma all_space_starts_nonspace (s : pystr) :
  starts_nonspace s -> forallb isspace s = true -> s = [].
Proof.
  destruct s as [|c r]; [reflexivity|]. simpl. intros -> H. discriminate H.
Qed.

Lemma forallb_rev {A : Type} (f : A -> bool) (l : list A) :
  forallb f (rev l) = forallb f l.
Proof.
  induction l as [|x l IH]; [reflexivity|].
  simpl. rewrite forallb_app, IH. simpl. rewrite andb_true_r. apply andb_comm.
Qed.

Lemma rstrip_nil_all_space (s : pystr) : rstrip s = [] -> forallb isspace s = true.
Proof.
  unfold rstrip. intros H.
  assert (lstrip (rev s) = []) as H'.
  { rewrite <- (rev_involutive (lstrip (rev s))), H. reflexivity. }
  apply lstrip_nil_all_space in H'. rewrite forallb_rev in H'. exact H'.
Qed.

(** A line without trailing whitespace is blank only when it is empty. *)
Lemma is_blank_rstrip (x : pystr) : is_blank (rstrip x) = is_empty (rstrip x).
Proof.
  unfold is_blank. destruct (rstrip x) as [|c y] eqn:Ey; [reflexivity|].
  rewrite <- Ey. destruct (strip (rstrip x)) as [|c' y'] eqn:Es; [|rewrite Ey; reflexivity].
  exfalso. unfold strip in Es.
  apply rstrip_nil_all_space in Es.
  apply all_space_starts_nonspace in Es; [|apply lstrip_starts_nonspace].
  apply lstrip_nil_all_space in Es.
  unfold rstrip in Es. rewrite forallb_rev in Es.
  apply all_space_starts_nonspace in Es; [|apply lstrip_starts_nonspace].
  unfold rstrip in Ey. rewrite Es in Ey. discriminate Ey.
Qed.

Lemma collapse_blank_lines_ok (lines : list pystr) :
  Forall (fun l => is_blank l = is_empty l) lines ->
  forall blank_run : Z,
    0 <= blank_run ->
    blank_lines_ok (Z.to_nat (Z.min blank_run 2)) (collapse_blank_runs blank_run lines)
    = true.
Proof.
  induction 1 as [|l rest Hl _ IH]; intros br Hbr; [reflexivity|].
  simpl collapse_blank_runs. rewrite Hl.
  destruct (is_empty l) eqn:El.
  - destruct (2 <? br + 1) eqn:E.
    + apply Z.ltb_lt in E. specialize (IH (br + 1) ltac:(lia)).
      replace (Z.min br 2) with (Z.min (br + 1) 2) by lia. exact IH.
    + apply Z.ltb_ge in E. simpl blank_lines_ok. rewrite El.
      apply andb_true_iff. split; [apply Nat.ltb_lt; lia|].
      specialize (IH (br + 1) ltac:(lia)).
      replace (S (Z.to_nat (Z.min br 2))) with (Z.to_nat (Z.min (br + 1) 2)) by lia.
      exact IH.
  - simpl Z.ltb. cbv iota. simpl blank_lines_ok. rewrite El.
    apply (IH 0 (Z.le_refl 0)).
Qed.

(** X24: normalized text never has more than three newlines in a row: runs
    of three or more blank lines (lines of whitespace included) are cut down
    to two. *)
Theorem normalize_text_blank_runs :
  forall text_ : pystr,
    newline_runs_ok 0 (normalize_text text_) = true
    /\ (forall u w : pystr, normalize_text text_ <> u ++ [nl; nl; nl; nl] ++ w).
Proof.
  intros text_.
  assert (newline_runs_ok 0 (normalize_text text_) = true) as Hok.
  { unfold normalize_text.
    set (lines := map rstrip
                    (split_char nl (replace [cr] [nl] (replace [cr; nl] [nl] text_)))).
    assert (newline_runs_ok 0 (join [nl] (collapse_blank_runs 0 lines)) = true) as Hj.
    { apply (join_newline_runs _) with (k := 0%nat); [|lia|].
      - apply Forall_forall. intros line Hline. apply Forall_forall. intros c Hc.
        apply collapse_blank_runs_In in Hline. apply in_map_iff in Hline.
        destruct Hline as (raw & <- & Hraw). apply In_rstrip in Hc.
        apply (split_char_In nl _ raw Hraw c Hc).
      - apply (collapse_blank_lines_ok lines) with (blank_run := 0); [|lia].
        apply Forall_forall. intros line Hline. apply in_map_iff in Hline.
        destruct Hline as (raw & <- & _). apply is_blank_rstrip. }
    destruct (strip_infix (join [nl] (collapse_blank_runs 0 lines))) as (u & w & Hs).
    rewrite Hs in Hj. apply newline_runs_suffix in Hj.
    apply (newline_runs_prefix _ _ _ Hj). }
  split; [exact Hok|].
  intros u w Heq. rewrite Heq in Hok.
  apply newline_runs_suffix in Hok. discriminate Hok.
Qed.

Example normalize_text_blank_runs_example :
  normalize_text (lit "a



   

b") = lit "a


b".
Proof. vm_compute. reflexivity. Qed.

(** ** The folder driver *)

Lemma write_chunks_spec (chunks : list chunk) :
  forall (written : list chunk) (count : Z),
    write_chunks chunks written count = (written ++ chunks, count + len chunks).
Proof.
  induction chunks as [|c rest IH]; intros written count.
  - simpl. rewrite app_nil_r, Z.add_0_r. reflexivity.
  - simpl write_chunks. rewrite IH, <- app_assoc, len_cons. simpl app.
    f_equal. lia.
Qed.

Section FolderProofs.

Variables (r : pystr) (cst ovt : Z).
Hypothesis size_positive : 0 < cst.
Hypothesis overlap_smaller : ovt < cst.

Lemma chunk_folder_files_returns (rel_dir : pystr) (files : list (pystr * option pystr)) :
  forall (written : list chunk) (count : Z),
  exists (fuel0 : nat) (added : list chunk),
    (forall fuel : nat, (fuel0 <= fuel)%nat ->
       chunk_folder_files fuel r cst ovt rel_dir files written count
       = (written ++ added, Ret (count + len added)))
    /\ Forall (from_readable_file r [(rel_dir, files)]) added.
Proof.
  induction files as [|[fn read] rest IH]; intros written count.
  - exists 0%nat, []. split; [|constructor].
    intros fuel _. simpl. rewrite app_nil_r, Z.add_0_r. reflexivity.
  - assert (forall c, from_readable_file r [(rel_dir, rest)] c ->
                      from_readable_file r [(rel_dir, (fn, read) :: rest)] c) as Hlift.
    { intros c (Hr & Hc & d & fs & f & ct & Hd & Hf & Hp).
      destruct Hd as [[= <- <-]|[]].
      repeat split; try assumption.
      exists rel_dir, ((fn, read) :: rest), f, ct.
      repeat split; [left; reflexivity|right; exact Hf|exact Hp]. }
    destruct read as [content_|].
    + destruct (chunk_file_returns content_ r (rel_path rel_dir fn) cst ovt
                  size_positive overlap_smaller) as [out [f1 Hout]].
      destruct (IH (written ++ out) (count + len out)) as (f2 & added & Hrun & Hall).
      exists (Nat.max f1 f2), (out ++ added). split.
      * intros fuel Hfuel. simpl chunk_folder_files.
        rewrite Hout by lia. rewrite write_chunks_spec.
        rewrite Hrun by lia. rewrite <- app_assoc, len_app. do 2 f_equal. lia.
      * apply Forall_app. split; [|apply (Forall_impl _ Hlift Hall)].
        pose proof (chunk_file_chunks_props f1 content_ r (rel_path rel_dir fn)
                      cst ovt out (Hout f1 (Nat.le_refl _))) as Hst.
        refine (Forall_impl _ _ Hst). intros c H.
        destruct H as (Hc & _ & Hr & Hp & _).
        repeat split; try assumption.
        exists rel_dir, ((fn, Some content_) :: rest), fn, content_.
        repeat split; [left; reflexivity|left; reflexivity|exact Hp].
    + destruct (IH written count) as (f2 & added & Hrun & Hall).
      exists f2, added. split; [exact Hrun|apply (Forall_impl _ Hlift Hall)].
Qed.

Lemma chunk_folder_dirs_returns (walk : list (pystr * list (pystr * option pystr))) :
  forall (written : list chunk) (count : Z),
  exists (fuel0 : nat) (added : list chunk),
    (forall fuel : nat, (fuel0 <= fuel)%nat ->
       chunk_folder_dirs fuel r cst ovt walk written count
       = (written ++ added, Ret (count + len added)))
    /\ Forall (from_readable_file r walk) added.
Proof.
  induction walk as [|[rel_dir files] rest IH]; intros written count.
  - exists 0%nat, []. split; [|constructor].
    intros fuel _. simpl. rewrite app_nil_r, Z.add_0_r. reflexivity.
  - destruct (chunk_folder_files_returns rel_dir files written count)
      as (f1 & out & Hout & Hall1).
    destruct (IH (written ++ out) (count + len out)) as (f2 & added & Hrun & Hall2).
    exists (Nat.max f1 f2), (out ++ added). split.
    + intros fuel Hfuel. simpl chunk_folder_dirs.
      rewrite Hout by lia. rewrite Hrun by lia.
      rewrite <- app_assoc, len_app. do 2 f_equal. lia.
    + apply Forall_app. split.
      * refine (Forall_impl _ _ Hall1). intros c H.
        destruct H as (Hr & Hc & d & fs & f & ct & Hd & Hf & Hp).
        destruct Hd as [[= <- <-]|[]].
        repeat split; try assumption.
        exists rel_dir, files, f, ct. repeat split; [left; reflexivity|exact Hf|exact Hp].
      * refine (Forall_impl _ _ Hall2). intros c H.
        destruct H as (Hr & Hc & d & fs & f & ct & Hd & Hf & Hp).
        repeat split; try assumption.
        exists d, fs, f, ct. repeat split; [right; exact Hd|exact Hf|exact Hp].
Qed.

(** X25: with a positive chunk size and a smaller overlap [chunk_folder]
    returns the number of lines it wrote; every line carries the repo, has
    content that is not empty, and comes from a file of the walk that could
    be read: files that cannot be read are skipped and stop nothing. *)
Theorem chunk_folder_count :
  forall walk : list (pystr * list (pystr * option pystr)),
  exists (fuel0 : nat) (written : list chunk),
    (forall fuel : nat, (fuel0 <= fuel)%nat ->
       chunk_folder fuel walk r cst ovt = (written, Ret (len written)))
    /\ Forall (from_readable_file r walk) written.
Proof.
  intros walk. unfold chunk_folder.
  destruct (chunk_folder_dirs_returns walk [] 0) as (fuel0 & added & Hrun & Hall).
  exists fuel0, added. split; [|exact Hall].
  intros fuel Hfuel. rewrite (Hrun fuel Hfuel). reflexivity.
Qed.

End FolderProofs.

Lemma chunk_folder_count_witness :
  exists (fuel0 : nat) (written : list chunk),
    (forall fuel : nat, (fuel0 <= fuel)%nat ->
       chunk_folder fuel small_walk (lit "owner/repo") 1000 200
       = (written, Ret (len written)))
    /\ Forall (from_readable_file (lit "owner/repo") small_walk) written.
Proof.
  apply (chunk_folder_count (lit "owner/repo") 1000 200); lia.
Defined.

Example chunk_folder_small_walk :
  exists written : list chunk,
    chunk_folder 50 small_walk (lit "owner/repo") 1000 200 = (written, Ret 5)
    /\ map (fun c => (file_path (chunk_metadata c), chunk_index (chunk_metadata c))) written
       = [(lit "README.md", 0); (lit "README.md", 1); (lit "README.md", 2);
          (lit "pkg/mod.py", 0); (lit "pkg/mod.py", 1)].
Proof. eexists. split; [vm_compute; reflexivity|reflexivity]. Qed.

(** ** Blank files *)

(** X26: a file whose normalized content is empty (an empty file, or one of
    whitespace only) gives no chunk and no error, for every path and for all
    sizes: the chunk size is not validated on such a file. *)
Theorem chunk_file_blank_content :
  forall (fuel : nat) (content_ r p : pystr) (chunk_size_tokens overlap_tokens : Z),
    normalize_text content_ = [] ->
    chunk_file fuel content_ r p chunk_size_tokens overlap_tokens = Ret [].
Proof.
  intros fuel content_ r p cst ovt Hblank.
  unfold chunk_file. rewrite Hblank.
  destruct (detect_file_type p); reflexivity.
Qed.

Lemma chunk_file_blank_content_witness :
  chunk_file 0 (lit "  

   ") (lit "owner/repo") (lit "notes.md") 0 (-3) = Ret [].
Proof.
  apply (chunk_file_blank_content 0 _ (lit "owner/repo") (lit "notes.md") 0 (-3)).
  vm_compute. reflexivity.
Defined.

(** ** Ranks in the context *)

Lemma lstrip_app_nonempty (x y : pystr) : lstrip x <> [] -> lstrip (x ++ y) = lstrip x ++ y.
Proof.
  induction x as [|c x IH]; simpl; [congruence|].
  destruct (isspace c); [exact IH|reflexivity].
Qed.

Lemma rstrip_app_nonspace (a b : pystr) (c : ascii) :
  isspace c = false -> rstrip (a ++ c :: b) = a ++ c :: rstrip b.
Proof.
  intros Hc. unfold rstrip.
  rewrite rev_app_distr. simpl rev. rewrite <- app_assoc. simpl app.
  change (rev b ++ c :: rev a) with (rev b ++ [c] ++ rev a).
  rewrite app_assoc, lstrip_app_nonempty.
  - rewrite (lstrip_snoc _ _ Hc), rev_app_distr, rev_involutive, rev_app_distr.
    simpl. reflexivity.
  - rewrite (lstrip_snoc _ _ Hc). destruct (lstrip (rev b)); discriminate.
Qed.

(** X27: every block of the context opens with its rank: the block of the
    result of rank [i] begins with [[CTX #i]], so no block is empty and the
    labels in the context follow the order of the results. *)
Theorem render_block_rank :
  forall (i : Z) (r : result),
  exists rest : pystr,
    render_block i r = lit "[CTX #" ++ str_of_int i ++ lit "]" ++ rest.
Proof.
  intros i r. unfold render_block.
  set (meta := match r_metadata r with Some d => d | None => [] end).
  set (tail := lit " " ++ format (dict_get meta "repo" (VStr [])) ++ lit " :: "
                 ++ format (dict_get meta "file_path" (VStr [])) ++ lit " :: chunk "
                 ++ format (dict_get meta "chunk_index" VNone) ++ [nl]
                 ++ format match r_document r with Some v => v | None => VStr [] end).
  assert ((lit "[CTX #" ++ str_of_int i ++ lit "] "
             ++ format (dict_get meta "repo" (VStr [])) ++ lit " :: "
             ++ format (dict_get meta "file_path" (VStr [])) ++ lit " :: chunk "
             ++ format (dict_get meta "chunk_index" VNone)) ++ [nl]
          ++ format match r_document r with Some v => v | None => VStr [] end
          = (lit "[CTX #" ++ str_of_int i) ++ "]"%char :: tail) as ->.
  { unfold tail. rewrite <- !app_assoc. reflexivity. }
  unfold strip. rewrite lstrip_fixed by reflexivity.
  rewrite rstrip_app_nonspace by reflexivity.
  exists (rstrip tail). rewrite <- app_assoc. reflexivity.
Qed.

(** ** File types and letter case *)

Lemma lower_char_idem (c : ascii) : lower_char (lower_char c) = lower_char c.
Proof. destruct c as [[|] [|] [|] [|] [|] [|] [|] [|]]; vm_compute; reflexivity. Qed.

Lemma lower_char_dot (c : ascii) : Ascii.eqb (lower_char c) "."%char = Ascii.eqb c "."%char.
Proof. destruct c as [[|] [|] [|] [|] [|] [|] [|] [|]]; vm_compute; reflexivity. Qed.

Lemma lower_char_dot' (c : ascii) : Ascii.eqb "."%char (lower_char c) = Ascii.eqb "."%char c.
Proof. destruct c as [[|] [|] [|] [|] [|] [|] [|] [|]]; vm_compute; reflexivity. Qed.

Lemma lower_char_slash (c : ascii) : Ascii.eqb (lower_char c) "/"%char = Ascii.eqb c "/"%char.
Proof. destruct c as [[|] [|] [|] [|] [|] [|] [|] [|]]; vm_compute; reflexivity. Qed.

Lemma rfind_lower (c : ascii) (s : pystr) :
  (forall a, Ascii.eqb (lower_char a) c = Ascii.eqb a c) ->
  forall i : Z, rfind c i (lower s) = rfind c i s.
Proof.
  intros Hc. induction s as [|a r IH]; intros i; [reflexivity|].
  unfold lower. cbn [rfind map]. fold (lower r). rewrite IH, Hc. reflexivity.
Qed.

Lemma slice_map {A B : Type} (f : A -> B) (s : list A) (lo hi : Z) :
  slice (map f s) lo hi = map f (slice s lo hi).
Proof.
  unfold slice, len. rewrite length_map, skipn_map, firstn_map. reflexivity.
Qed.

Lemma splitext_ext_lower (p : pystr) : splitext_ext (lower p) = lower (splitext_ext p).
Proof.
  unfold splitext_ext.
  rewrite (rfind_lower "/"%char p lower_char_slash), (rfind_lower "."%char p lower_char_dot).
  destruct (rfind "/"%char 0 p <? rfind "."%char 0 p); [|reflexivity].
  unfold lower at 1 2. rewrite !slice_map.
  assert (forall name, forallb (Ascii.eqb "."%char) (map lower_char name)
                       = forallb (Ascii.eqb "."%char) name) as Hall.
  { induction name as [|a name IH]; [reflexivity|].
    cbn [forallb map]. rewrite IH, lower_char_dot'. reflexivity. }
  rewrite Hall.
  replace (len (lower p)) with (len p) by (unfold len, lower; rewrite length_map; reflexivity).
  destruct (forallb (Ascii.eqb "."%char) (slice p (rfind "/"%char 0 p + 1) (rfind "."%char 0 p)));
    reflexivity.
Qed.

Lemma lower_idem (s : pystr) : lower (lower s) = lower s.
Proof.
  unfold lower. rewrite map_map. apply map_ext. intros c. apply lower_char_idem.
Qed.

(** X28: the file type does not depend on the case of the letters of the
    path: [README.MD] and [readme.md], [Setup.PY] and [setup.py] are typed
    alike. *)
Theorem detect_file_type_ignores_case :
  forall p : pystr, detect_file_type (lower p) = detect_file_type p.
Proof.
  intros p. unfold detect_file_type.
  rewrite splitext_ext_lower, lower_idem. reflexivity.
Qed.

Lemma rfind_lower_bound (c : ascii) (s : pystr) :
  forall i : Z, -1 <= i -> -1 <= rfind c i s.
Proof.
  induction s as [|a r IH]; intros i Hi; cbn [rfind]; [lia|].
  specialize (IH (i + 1) ltac:(lia)).
  destruct (0 <=? rfind c (i + 1) r) eqn:E; [exact IH|].
  destruct (Ascii.eqb a c); lia.
Qed.

Lemma rfind_absent (c : ascii) (s : pystr) :
  ~ In c s -> forall i : Z, rfind c i s = -1.
Proof.
  induction s as [|a r IH]; intros Hnot i; [reflexivity|].
  cbn [rfind]. rewrite IH by (intros H; apply Hnot; right; exact H).
  change (0 <=? -1) with false. cbv iota.
  destruct (Ascii.eqb_spec a c) as [->|_]; [|reflexivity].
  exfalso. apply Hnot. left. reflexivity.
Qed.

(** X29: a path without a dot ([Makefile], [LICENSE], [bin/run]) has no
    extension and is typed as plain text. *)
Theorem detect_file_type_no_dot :
  forall p : pystr, ~ In "."%char p -> detect_file_type p = text.
Proof.
  intros p Hnot. unfold detect_file_type, splitext_ext.
  rewrite (rfind_absent "."%char p Hnot).
  pose proof (rfind_lower_bound "/"%char p 0 ltac:(lia)) as Hsep.
  destruct (rfind "/"%char 0 p <? -1) eqn:E; [apply Z.ltb_lt in E; lia|].
  reflexivity.
Qed.

Lemma detect_file_type_no_dot_witness : detect_file_type (lit "bin/run") = text.
Proof.
  apply (detect_file_type_no_dot (lit "bin/run")).
  intros H. repeat (destruct H as [H|H]; [discriminate H|]). exact H.
Defined.
